(** * The Morse-code calculator face (morsecalc_face.c)

    A shallow embedding of the input/output core of the Morse-code
    calculator watch face: the float formatter [morsecalc_print_float], the
    token and stack views, the dispatcher [morsecalc_input] and the
    lifecycle hooks.

    Conventions.
    - A C [double] is a binary64 primitive float; [==], [<], unary minus,
      [*] and [/] are the IEEE operations of [PrimFloat].
    - A C [int] or [uint8_t] is a [Z]; [/] and [%] on [int] are [Z.quot] and
      [Z.rem]; a value stored into a [uint8_t] or passed as a character is
      reduced modulo 256.  Signed overflow of [int] is undefined in C and is
      not given a meaning here.
    - The segment display is a finite map from character position to the
      glyph last written there.
    - What the file only calls (the math library, the Morse decoder, the
      calculator engine) is a parameter, bundled in a class. *)

From Stdlib Require Import ZArith Floats Uint63 Ascii String.
From stdpp Require Import base option list gmap.

Open Scope Z_scope.

#[local] Set Warnings "-inexact-float".

(** ** C characters and strings *)

Definition NUL : ascii := Ascii.zero.

(** An [int] passed where a character is expected. *)
Definition char_of_int (z : Z) : ascii := ascii_of_N (Z.to_N (z mod 256)).

Definition int_of_char (c : ascii) : Z := Z.of_N (N_of_ascii c).

(** The C string stored at the start of a character array: the characters
    before the first terminator. *)
Fixpoint c_str (a : list ascii) : list ascii :=
  match a with
  | [] => []
  | c :: a' => if Ascii.eqb c NUL then [] else c :: c_str a'
  end.

Definition strlen (a : list ascii) : Z := Z.of_nat (length (c_str a)).

(** ** The segment display *)

Abbreviation display := (gmap nat ascii).

Definition Num_Chars : nat := 10.

(** Modelled from the spec: [watch_display_character] of the display driver
    (watch library, not part of this file).  The display has exactly ten
    character positions; writing a character replaces the glyph of one
    position. *)
Definition watch_display_character (c : ascii) (position : nat) (d : display) : display :=
  if (position <? Num_Chars)%nat then <[position := c]> d else d.

Fixpoint watch_display_chars (str : list ascii) (position : nat) (d : display) : display :=
  match str with
  | [] => d
  | c :: str' => watch_display_chars str' (S position) (watch_display_character c position d)
  end.

(** Modelled from the spec: [watch_display_string] of the display driver
    (watch library, not part of this file): the characters of the string go
    to consecutive positions from [position], and nothing is written past
    the tenth position. *)
Definition watch_display_string (str : string) (position : nat) (d : display) : display :=
  watch_display_chars (list_ascii_of_string str) position d.

(** The glyph shown at a position; a position never written shows blank. *)
Definition glyph (d : display) (position : nat) : ascii :=
  default " "%char (d !! position).

(** The glyphs of [len] consecutive positions from [position]. *)
Fixpoint field (d : display) (position len : nat) : string :=
  match len with
  | O => EmptyString
  | S len' => String (glyph d position) (field d (S position) len')
  end.

(** The whole row, as text. *)
Definition render (d : display) : string := field d 0 Num_Chars.

(** ** Doubles and the math library *)

(** Conversion of an [int] to [double]: exact for every 32-bit value. *)
Definition double_of_int (z : Z) : float :=
  if z <? 0 then (- PrimFloat.of_uint63 (Uint63.of_Z (- z)))%float
  else PrimFloat.of_uint63 (Uint63.of_Z z).

(** [<math.h>] and the conversion of a [double] to [int].  The accuracy of
    [log] and [pow] is the library's, and the conversion is undefined in C
    outside the range of [int]: all of them are parameters. *)
Class MathLib := {
  log : float -> float;
  pow : float -> float -> float;
  floor : float -> float;
  round : float -> float;
  int_of_double : float -> Z
}.

Section PrintFloat.

Context {M : MathLib}.

(** The four early returns of [morsecalc_print_float] (lines 37-53) are
    taken exactly when one of these tests succeeds. *)
Definition is_special (d : float) : bool :=
  (d =? 0)%float || PrimFloat.is_nan d || (d =? 1 / 0)%float || (d =? (-1) / 0)%float.

(** Line 61: [int om = (int) floor(log(d)/log(10))], for [d] already made
    positive. *)
Definition order_of_magnitude (d : float) : Z :=
  int_of_double (floor (log d / log 10)%float).

(** Line 66: [digits = round(d*pow(10.0, 3-om))]. *)
Definition significant_digits (d : float) (om : Z) : Z :=
  int_of_double (round (d * pow 10 (double_of_int (3 - om)))%float).

(** Lines 72-99: the signs, the four digits and the exponent, from the
    integers computed above. *)
Definition print_float_fields (is_negative om_is_negative om digits : Z) (disp : display)
  : display :=
  (* Print signs *)
  let disp := if negb (is_negative =? 0) then watch_display_character "-" 1 disp
              else watch_display_character " " 1 disp in
  let disp := if om_is_negative <? 0 then watch_display_character "-" 2 disp
              else watch_display_character " " 2 disp in
  (* Print first 4 significant figures *)
  let disp := watch_display_character (char_of_int (48 + Z.rem (digits ÷ 1000) 10)) 4 disp in
  let disp := watch_display_character (char_of_int (48 + Z.rem (digits ÷ 100) 10)) 5 disp in
  let disp := watch_display_character (char_of_int (48 + Z.rem (digits ÷ 10) 10)) 6 disp in
  let disp := watch_display_character (char_of_int (48 + Z.rem (digits ÷ 1) 10)) 7 disp in
  (* Print exponent *)
  let om := if negb (om_is_negative =? 0) then - om else om in
  if om <=? 99 then
    let disp := watch_display_character (char_of_int (48 + Z.rem (om ÷ 10) 10)) 8 disp in
    watch_display_character (char_of_int (48 + Z.rem (om ÷ 1) 10)) 9 disp
  else
    let disp := if negb (om_is_negative =? 0) then watch_display_string "    uf" 4 disp
                else watch_display_string "    of" 4 disp in
    if om <? 9999 then
      let disp := watch_display_character (char_of_int (48 + Z.rem (om ÷ 1000) 10)) 4 disp in
      let disp := watch_display_character (char_of_int (48 + Z.rem (om ÷ 100) 10)) 5 disp in
      let disp := watch_display_character (char_of_int (48 + Z.rem (om ÷ 10) 10)) 6 disp in
      watch_display_character (char_of_int (48 + Z.rem (om ÷ 1) 10)) 7 disp
    else disp.

(** Lines 57-58: [d] after [if(is_negative) d = -d]. *)
Definition magnitude (d : float) : float :=
  if (d <? 0)%float then (- d)%float else d.

(** Lines 57-70: sign, order of magnitude and digits with the rounding
    carry; the result is (is_negative, om_is_negative, om, digits) as they
    stand at line 72. *)
Definition float_parts (d : float) : Z * Z * Z * Z :=
  let is_negative := Z.b2z (d <? 0)%float in
  let d := if negb (is_negative =? 0) then (- d)%float else d in
  let om := order_of_magnitude d in
  let om_is_negative := Z.b2z (om <? 0) in
  let digits := significant_digits d om in
  if digits >? 9999 then (is_negative, om_is_negative, om + 1, 1000)
  else (is_negative, om_is_negative, om, digits).

(** Display float on screen. *)
Definition morsecalc_print_float (d : float) (disp : display) : display :=
  if (d =? 0)%float then watch_display_string "     0" 4 disp
  else if PrimFloat.is_nan d then watch_display_string "   nan" 4 disp
  else if (d =? 1 / 0)%float then watch_display_string "   inf" 4 disp
  else if (d =? (-1) / 0)%float then
    watch_display_string "   inf" 4 (watch_display_character "-" 1 disp)
  else
    let '(is_negative, om_is_negative, om, digits) := float_parts d in
    print_float_fields is_negative om_is_negative om digits disp.

End PrintFloat.

(** ** A reference math library

    An instance of [MathLib] written with IEEE operations only, so that the
    formatter can be run on concrete doubles.  The theorems below hold for
    every math library; this one serves to evaluate the model. *)

Module RefMath.

(** The integral part of a finite double, rounded toward zero. *)
Definition trunc (f : float) : Z :=
  match Prim2SF f with
  | S754_finite sg m e =>
      let v := if 0 <=? e then Z.shiftl (Z.pos m) e else Z.shiftr (Z.pos m) (- e) in
      if sg then - v else v
  | _ => 0
  end.

Definition is_integral (f : float) : bool := (double_of_int (trunc f) =? f)%float.

(** Doubles of magnitude 2^52 and above (and infinities, NaN) are their own
    floor and rounding. *)
Definition small (f : float) : bool := (PrimFloat.abs f <? 0x1p52)%float.

Definition floor (f : float) : float :=
  if small f then
    let t := trunc f in
    if is_integral f then f
    else double_of_int (if (f <? 0)%float then t - 1 else t)
  else f.

(** Halfway cases are rounded away from zero. *)
Definition round (f : float) : float :=
  if small f then
    let a := PrimFloat.abs f in
    let t := trunc a in
    let r := if (0.5 <=? a - double_of_int t)%float then t + 1 else t in
    if (f <? 0)%float then (- double_of_int r)%float else double_of_int r
  else f.

(** The conversion saturates, as the conversion routine of the target
    does. *)
Definition int_of_double (f : float) : Z :=
  match Prim2SF f with
  | S754_nan => 0
  | S754_infinity sg => if sg then - 2 ^ 31 else 2 ^ 31 - 1
  | _ => Z.max (- 2 ^ 31) (Z.min (2 ^ 31 - 1) (trunc f))
  end.

(** atanh(t)/t = 1 + t^2/3 + t^4/5 + ..., cut after [n] terms. *)
Fixpoint atanh_poly (n : nat) (k : Z) (t2 : float) : float :=
  match n with
  | O => 0%float
  | S n' => (1 / double_of_int k + t2 * atanh_poly n' (k + 2) t2)%float
  end.

Definition ln2 : float := 0x1.62e42fefa39efp-1%float.

(** Natural logarithm of a positive finite double [m * 2^e], as
    [e * ln 2 + 2 * atanh ((m - 1) / (m + 1))]. *)
Definition log (x : float) : float :=
  let '(m, e) := Z.frexp x in
  let t := ((m - 1) / (m + 1))%float in
  (double_of_int e * ln2 + 2 * t * atanh_poly 24 1 (t * t))%float.

Definition pow_nat (x : float) (n : nat) : float :=
  Nat.iter n (fun acc => (acc * x)%float) 1%float.

(** Powers with an integral exponent, the only ones the formatter asks
    for. *)
Definition pow (x y : float) : float :=
  if is_integral y then
    let n := trunc y in
    if n <? 0 then (1 / pow_nat x (Z.to_nat (- n)))%float else pow_nat x (Z.to_nat n)
  else nan.

End RefMath.

#[global] Instance ref_math : MathLib := {|
  log := RefMath.log;
  pow := RefMath.pow;
  floor := RefMath.floor;
  round := RefMath.round;
  int_of_double := RefMath.int_of_double
|}.

(** ** Session state and its collaborators *)

(** Modelled from the spec: the Morse symbol buffer [mc_state_t] of the
    Morse library (not part of this file): an ordered sequence of dot and
    dash symbols [b] with its current length [bidx]. *)
Record mc_state_t := { mc_b : list ascii; mc_bidx : Z }.

(** The calculator's stack, as this file reads it: [s] items, the top one
    at [stack[s-1]]. *)
Record calc_state_t := { cs_s : Z; cs_stack : list float }.

(** [morsecalc_state_t]: calculator, symbol buffer, token buffer and its
    logical length. *)
Record morsecalc_state_t := {
  mcs_cs : calc_state_t;
  mcs_mc : mc_state_t;
  mcs_token : list ascii;
  mcs_idxt : Z
}.

(** What the face takes from its headers and libraries: the two buffer
    capacities, the Morse decode table and the calculator engine, which
    answers a token with a status code and an updated stack. *)
Class MorseCalcLib := {
  MORSECALC_TOKEN_LEN : Z;
  MC_BUF_LEN : Z;
  mc_dec : list ascii -> ascii;
  calc_input : calc_state_t -> list ascii -> Z * calc_state_t
}.

(** Modelled from the spec: [mc_reset] of the Morse library (not part of
    this file): the symbol buffer is cleared to length 0. *)
Definition mc_reset (mc : mc_state_t) : mc_state_t :=
  {| mc_b := []; mc_bidx := 0 |}.

Section Face.

Context {M : MathLib} {L : MorseCalcLib}.

(** Modelled from the spec: [mc_input] of the Morse library (not part of
    this file): a push appends one symbol, and is a no-op once the capacity
    is reached. *)
Definition mc_input (mc : mc_state_t) (c : ascii) : mc_state_t :=
  if mc_bidx mc <? MC_BUF_LEN
  then {| mc_b := mc_b mc ++ [c]; mc_bidx := mc_bidx mc + 1 |}
  else mc.

(** Print current input token. *)
Definition morsecalc_print_token (mcs : morsecalc_state_t) (disp : display) : display :=
  let disp := watch_display_string "          " 0 disp in
  let c := mc_dec (mc_b (mcs_mc mcs)) in
  let c := if Ascii.eqb NUL c then " "%char else c in
  let disp := watch_display_character c 0 disp in
  let disp := watch_display_character (char_of_int (48 + mc_bidx (mcs_mc mcs))) 3 disp in
  let nlen := strlen (mcs_token mcs) mod 256 in
  let nprint := Z.min nlen 6 in
  watch_display_string
    (string_of_list_ascii (c_str (drop (Z.to_nat (nlen - nprint)) (mcs_token mcs))))
    (10 - Z.to_nat nprint) disp.

(** Clear token buffer. *)
Definition morsecalc_reset_token (mcs : morsecalc_state_t) : morsecalc_state_t :=
  {| mcs_cs := mcs_cs mcs;
     mcs_mc := mcs_mc mcs;
     mcs_token := replicate (Z.to_nat MORSECALC_TOKEN_LEN) NUL;
     mcs_idxt := 0 |}.

(** Lines 133-135 of [morsecalc_print_stack]: the selected stack item. *)
Definition stack_view_idx (mcs : morsecalc_state_t) : Z :=
  let c := mc_dec (mc_b (mcs_mc mcs)) in
  if (48 <=? int_of_char c) && (int_of_char c <=? 57) then (int_of_char c - 48) mod 256
  else 0.

(** Lines 137-138: the subscript at which [morsecalc_print_stack] reads
    [stack], if it reads it at all.  It is the only place where the face
    reads the stack. *)
Definition stack_view_subscript (mcs : morsecalc_state_t) : option Z :=
  let idx := stack_view_idx mcs in
  if idx >=? cs_s (mcs_cs mcs) then None
  else Some (cs_s (mcs_cs mcs) - 1 - idx).

(** [stack[i]]; a subscript outside the array has no defined value in C
    and reads as 0 here. *)
Definition stack_at (cs : calc_state_t) (i : Z) : float :=
  if i <? 0 then 0%float else default 0%float (cs_stack cs !! Z.to_nat i).

(** Print stack contents. *)
Definition morsecalc_print_stack (mcs : morsecalc_state_t) (disp : display) : display :=
  let disp := watch_display_string "          " 0 disp in
  let idx := stack_view_idx mcs in
  let disp :=
    match stack_view_subscript mcs with
    | None => watch_display_string " empty" 4 disp
    | Some i => morsecalc_print_float (stack_at (mcs_cs mcs) i) disp
    end in
  let disp := watch_display_character (char_of_int (48 + idx)) 0 disp in
  watch_display_character (char_of_int (48 + cs_s (mcs_cs mcs))) 3 disp.

(** Lines 192-197 of [morsecalc_input]: the literal shown for a status
    code, if any. *)
Definition error_literal (status : Z) : option string :=
  if status =? 0 then None
  else if status =? -1 then Some "cmderr"%string
  else if status =? -2 then Some "stkerr"%string
  else Some "   err"%string.

Definition morsecalc_print_errors (status : Z) (disp : display) : display :=
  match error_literal status with
  | None => disp
  | Some msg => watch_display_string msg 4 disp
  end.

Definition with_mc (mcs : morsecalc_state_t) (mc : mc_state_t) : morsecalc_state_t :=
  {| mcs_cs := mcs_cs mcs; mcs_mc := mc; mcs_token := mcs_token mcs; mcs_idxt := mcs_idxt mcs |}.

Definition with_cs (mcs : morsecalc_state_t) (cs : calc_state_t) : morsecalc_state_t :=
  {| mcs_cs := cs; mcs_mc := mcs_mc mcs; mcs_token := mcs_token mcs; mcs_idxt := mcs_idxt mcs |}.

Definition with_token (mcs : morsecalc_state_t) (token : list ascii) (idxt : Z)
  : morsecalc_state_t :=
  {| mcs_cs := mcs_cs mcs; mcs_mc := mcs_mc mcs; mcs_token := token; mcs_idxt := idxt |}.

(** Lines 148-189 of [morsecalc_input]: the status left in [status], the
    new session state and the display, before the errors are printed.
    [c] is a dot, a dash, or 'x' for a completed character. *)
Definition morsecalc_input_dispatch (mcs : morsecalc_state_t) (c : ascii) (disp : display)
  : Z * morsecalc_state_t * display :=
  if negb (Ascii.eqb c "x") then
    (* Dot or dash received *)
    let mcs := with_mc mcs (mc_input (mcs_mc mcs) c) in
    (0, mcs, morsecalc_print_token mcs disp)
  else
    (* Morse code character finished *)
    let dec := mc_dec (mc_b (mcs_mc mcs)) in
    let mcs := with_mc mcs (mc_reset (mcs_mc mcs)) in
    if Ascii.eqb dec NUL then
      (* Invalid character, do nothing *)
      (0, mcs, morsecalc_print_token mcs disp)
    else if Ascii.eqb dec " " then
      (* Submit token to calculator *)
      let '(status, cs) := calc_input (mcs_cs mcs) (mcs_token mcs) in
      let mcs := morsecalc_reset_token (with_cs mcs cs) in
      (status, mcs, morsecalc_print_stack mcs disp)
    else if Ascii.eqb dec "(" then
      (* Erase previous character in token *)
      let mcs :=
        if mcs_idxt mcs >? 0 then
          let idxt := (mcs_idxt mcs - 1) mod 256 in
          with_token mcs (<[Z.to_nat idxt := NUL]> (mcs_token mcs)) idxt
        else mcs in
      (0, mcs, morsecalc_print_token mcs disp)
    else if Ascii.eqb dec "S" then
      (* Erase entire token without submitting *)
      let mcs := morsecalc_reset_token mcs in
      (0, mcs, morsecalc_print_stack mcs disp)
    else
      (* Add character to token *)
      if mcs_idxt mcs <? MORSECALC_TOKEN_LEN - 1 then
        let mcs :=
          with_token mcs (<[Z.to_nat (mcs_idxt mcs) := dec]> (mcs_token mcs))
                     ((mcs_idxt mcs + 1) mod 256) in
        (0, mcs, morsecalc_print_token mcs disp)
      else (0, mcs, watch_display_string "  full" 4 disp).

(** Write something into the morse code buffer. *)
Definition morsecalc_input (mcs : morsecalc_state_t) (c : ascii) (disp : display)
  : morsecalc_state_t * display :=
  let '(status, mcs, disp) := morsecalc_input_dispatch mcs c disp in
  (mcs, morsecalc_print_errors status disp).

(** [morsecalc_face_activate]: the hook run each time the face becomes the
    active view. *)
Definition morsecalc_face_activate (mcs : morsecalc_state_t) (disp : display)
  : morsecalc_state_t * display :=
  let mcs := with_mc mcs (mc_reset (mcs_mc mcs)) in
  (mcs, morsecalc_print_stack mcs disp).

End Face.

(** ** A sample Morse library and calculator

    The decode table and the calculator engine live outside this file.
    These stand-ins (International Morse code for a few characters, the
    empty sequence decoding to the submit character, the two command
    sequences named in the comments of [morsecalc_input], and a calculator
    that pushes integers and adds) serve to run the face on concrete
    sessions. *)

Module Sample.

Definition morse_table : list (string * string) :=
  [ ("-.--.", "("); ("-.-.-", "S");
    (".----", "1"); ("..---", "2"); ("...--", "3"); ("....-", "4"); (".....", "5");
    ("-....", "6"); ("--...", "7"); ("---..", "8"); ("----.", "9"); ("-----", "0");
    (".-", "a"); ("-...", "b"); ("-.-.", "c"); ("-..", "d"); (".", "e");
    ("....", "h"); ("--", "m"); ("---", "o"); (".-.", "r"); (".-.-.", "+") ]%string.

Definition mc_dec (b : list ascii) : ascii :=
  match b with
  | [] => " "%char
  | _ =>
      match List.find (fun p => String.eqb (fst p) (string_of_list_ascii b)) morse_table with
      | Some (_, String c _) => c
      | _ => NUL
      end
  end.

(** The value of a string of decimal digits. *)
Fixpoint number (t : list ascii) (acc : Z) : option Z :=
  match t with
  | [] => Some acc
  | c :: t' =>
      let v := int_of_char c - 48 in
      if (0 <=? v) && (v <=? 9) then number t' (10 * acc + v) else None
  end.

Definition push (x : float) (cs : calc_state_t) : calc_state_t :=
  {| cs_s := cs_s cs + 1; cs_stack := take (Z.to_nat (cs_s cs)) (cs_stack cs) ++ [x] |}.

(** Status 0 on success, -1 for an unknown word, -2 when the stack is too
    small for the operator. *)
Definition calc_input (cs : calc_state_t) (token : list ascii) : Z * calc_state_t :=
  match c_str token with
  | [] => (0, cs)
  | t =>
      match number t 0 with
      | Some n => (0, push (double_of_int n) cs)
      | None =>
          if String.eqb (string_of_list_ascii t) "+" then
            if cs_s cs <? 2 then (-2, cs)
            else
              let x := stack_at cs (cs_s cs - 1) in
              let y := stack_at cs (cs_s cs - 2) in
              (0, push (x + y)%float
                    {| cs_s := cs_s cs - 2; cs_stack := cs_stack cs |})
          else (-1, cs)
      end
  end.

Definition calc_init (cs : calc_state_t) : calc_state_t :=
  {| cs_s := 0; cs_stack := [] |}.

End Sample.

#[global] Instance sample_lib : MorseCalcLib := {|
  MORSECALC_TOKEN_LEN := 9;
  MC_BUF_LEN := 6;
  mc_dec := Sample.mc_dec;
  calc_input := Sample.calc_input
|}.

(** A session with [symbols] pending in the symbol buffer, [token] typed
    so far and [stack] on the calculator, top last. *)
Definition session (symbols token : string) (stack : list float) : morsecalc_state_t :=
  let b := list_ascii_of_string symbols in
  let t := list_ascii_of_string token in
  {| mcs_cs := {| cs_s := Z.of_nat (length stack); cs_stack := stack |};
     mcs_mc := {| mc_b := b; mc_bidx := Z.of_nat (length b) |};
     mcs_token := t ++ replicate (Z.to_nat MORSECALC_TOKEN_LEN - length t) NUL;
     mcs_idxt := Z.of_nat (length t) |}.

(** The face fed a sequence of button events, oldest first. *)
Definition run (cs : list ascii) (mcs : morsecalc_state_t) (disp : display)
  : morsecalc_state_t * display :=
  foldl (fun st c => morsecalc_input (fst st) c (snd st)) (mcs, disp) cs.


(** ** Lifecycle hooks and the event loop *)

(** The event types [morsecalc_face_loop] tells apart (their declaration,
    in the movement framework, is not part of this file); [EVENT_OTHER]
    stands for every type the switch does not name. *)
Inductive movement_event_type_t :=
  | EVENT_TIMEOUT
  | EVENT_MODE_LONG_PRESS
  | EVENT_LIGHT_LONG_PRESS
  | EVENT_ALARM_LONG_PRESS
  | EVENT_ALARM_BUTTON_UP
  | EVENT_LIGHT_BUTTON_UP
  | EVENT_MODE_BUTTON_UP
  | EVENT_OTHER.

(** What one call of [morsecalc_face_loop] leaves behind: the session, the
    display, whether [movement_move_to_next_face] was called, and the
    value returned. *)
Record loop_result := {
  lr_mcs : morsecalc_state_t;
  lr_disp : display;
  lr_next_face : bool;
  lr_return : bool
}.

Section Lifecycle.

Context {M : MathLib} {L : MorseCalcLib}.

(** [morsecalc_face_setup].  [context_ptr] is [None] for a null pointer;
    [fresh] is whatever the allocated memory holds, and [calc_init] is the
    calculator's initialiser. *)
Definition morsecalc_face_setup (calc_init : calc_state_t -> calc_state_t)
    (fresh : morsecalc_state_t) (context_ptr : option morsecalc_state_t)
  : option morsecalc_state_t :=
  match context_ptr with
  | None =>
      let mcs := morsecalc_reset_token fresh in
      let mcs := with_cs mcs (calc_init (mcs_cs mcs)) in
      let mcs := with_mc mcs (mc_reset (mcs_mc mcs)) in
      Some mcs
  | Some mcs => Some mcs
  end.

(** [morsecalc_face_loop]. *)
Definition morsecalc_face_loop (event_type : movement_event_type_t)
    (mcs : morsecalc_state_t) (disp : display) : loop_result :=
  match event_type with
  (* quit *)
  | EVENT_TIMEOUT | EVENT_MODE_LONG_PRESS =>
      {| lr_mcs := mcs; lr_disp := disp; lr_next_face := true; lr_return := true |}
  | EVENT_LIGHT_LONG_PRESS | EVENT_ALARM_LONG_PRESS =>
      {| lr_mcs := mcs; lr_disp := morsecalc_print_stack mcs disp;
         lr_next_face := false; lr_return := true |}
  (* input *)
  | EVENT_ALARM_BUTTON_UP =>
      let r := morsecalc_input mcs "." disp in
      {| lr_mcs := r.1; lr_disp := r.2; lr_next_face := false; lr_return := true |}
  | EVENT_LIGHT_BUTTON_UP =>
      let r := morsecalc_input mcs "-" disp in
      {| lr_mcs := r.1; lr_disp := r.2; lr_next_face := false; lr_return := true |}
  | EVENT_MODE_BUTTON_UP =>
      let r := morsecalc_input mcs "x" disp in
      {| lr_mcs := r.1; lr_disp := r.2; lr_next_face := false; lr_return := true |}
  | EVENT_OTHER =>
      {| lr_mcs := mcs; lr_disp := disp; lr_next_face := false; lr_return := true |}
  end.

(** [morsecalc_face_resign] does nothing. *)
Definition morsecalc_face_resign (mcs : morsecalc_state_t) : morsecalc_state_t := mcs.

(** The face over a sequence of events, oldest first. *)
Definition run_events (events : list movement_event_type_t)
    (mcs : morsecalc_state_t) (disp : display) : morsecalc_state_t * display :=
  foldl (fun st ev => let r := morsecalc_face_loop ev st.1 st.2 in (lr_mcs r, lr_disp r))
        (mcs, disp) events.

(** The token buffer holds the text [t]: [t] has no terminator in it and
    leaves room for one, the array is [t] followed by terminators up to its
    capacity, and [idxt] is the length of [t]. *)
Definition token_holds (t : list ascii) (mcs : morsecalc_state_t) : Prop :=
  Forall (fun c => c <> NUL) t /\
  (length t < Z.to_nat MORSECALC_TOKEN_LEN)%nat /\
  mcs_token mcs = t ++ replicate (Z.to_nat MORSECALC_TOKEN_LEN - length t) NUL /\
  mcs_idxt mcs = Z.of_nat (length t).

End Lifecycle.

(** Two displays that show the same glyph at every position in [P]. *)
Definition agree_on (P : nat -> Prop) (d1 d2 : display) : Prop :=
  forall p, P p -> glyph d1 p = glyph d2 p.

(** Two displays that show the same ten glyphs. *)
Definition same_row (d1 d2 : display) : Prop :=
  agree_on (fun p => (p < Num_Chars)%nat) d1 d2.

(** Zero-padded decimal text of a natural number, [width] digits wide. *)
Fixpoint decimal (width : nat) (n : Z) : string :=
  match width with
  | O => EmptyString
  | S w => String (char_of_int (48 + (n / 10 ^ Z.of_nat w) mod 10)) (decimal w n)
  end.

(** * Properties *)

(** ** Reading the display *)

Lemma glyph_write_eq c p d :
  (p < Num_Chars)%nat -> glyph (watch_display_character c p d) p = c.
Proof.
  intros Hp. unfold glyph, watch_display_character.
  destruct (Nat.ltb_spec p Num_Chars) as [_|Hge]; [|lia].
  by rewrite lookup_insert_eq.
Qed.

Lemma glyph_write_ne c p q d :
  p <> q -> glyph (watch_display_character c p d) q = glyph d q.
Proof.
  intros Hne. unfold glyph, watch_display_character.
  destruct (p <? Num_Chars)%nat; [|done].
  by rewrite lookup_insert_ne.
Qed.

#[local] Arguments watch_display_character : simpl never.

(** Case analysis on the tests of the conditionals in the goal. *)
Ltac case_tests :=
  repeat (cbn [negb];
          match goal with
          | |- context [if ?b then _ else _] =>
              lazymatch b with
              | negb true => fail
              | negb false => fail
              | negb ?c => destruct c
              | true => fail
              | false => fail
              | _ => destruct b
              end
          end);
  cbn [negb].

(** Rewrites the glyphs of a display built from writes at known
    positions. *)
Ltac read_display :=
  unfold watch_display_string; cbn [list_ascii_of_string watch_display_chars field];
  repeat first
    [ rewrite glyph_write_eq by (unfold Num_Chars; lia)
    | rewrite glyph_write_ne by lia ].

(** Unfolds [decimal] at a known width. *)
Ltac decimal_digits :=
  cbn [decimal];
  change (10 ^ Z.of_nat 3) with 1000; change (10 ^ Z.of_nat 2) with 100;
  change (10 ^ Z.of_nat 1) with 10; change (10 ^ Z.of_nat 0) with 1.

Section FloatFormatter.

Context {M : MathLib}.

Lemma is_special_false d :
  is_special d = false ->
  (d =? 0)%float = false /\ PrimFloat.is_nan d = false /\
  (d =? 1 / 0)%float = false /\ (d =? (-1) / 0)%float = false.
Proof.
  unfold is_special. intros H.
  repeat (apply orb_false_elim in H; destruct H as [H ?]). auto.
Qed.

Lemma print_float_finite d disp :
  is_special d = false ->
  morsecalc_print_float d disp =
  let '(is_negative, om_is_negative, om, digits) := float_parts d in
  print_float_fields is_negative om_is_negative om digits disp.
Proof.
  intros H. apply is_special_false in H as (H0 & H1 & H2 & H3).
  unfold morsecalc_print_float. by rewrite H0, H1, H2, H3.
Qed.

(** [float_parts] in terms of the magnitude of [d]. *)
Lemma float_parts_eq d :
  float_parts d =
  let a := magnitude d in
  let om := order_of_magnitude a in
  let digits := significant_digits a om in
  if digits >? 9999 then (Z.b2z (d <? 0)%float, Z.b2z (om <? 0), om + 1, 1000)
  else (Z.b2z (d <? 0)%float, Z.b2z (om <? 0), om, digits).
Proof. unfold float_parts, magnitude. by destruct (d <? 0)%float. Qed.

(** The digits never exceed 9999 once the carry has been applied, and the
    recorded exponent sign is that of the exponent before the carry. *)
Lemma float_parts_inv d is_negative om_is_negative om digits :
  float_parts d = (is_negative, om_is_negative, om, digits) ->
  is_negative = Z.b2z (d <? 0)%float /\ digits <= 9999 /\
  ((om_is_negative = 1 /\ om <= 0) \/ (om_is_negative = 0 /\ 0 <= om)).
Proof.
  rewrite float_parts_eq. cbv zeta.
  set (om0 := order_of_magnitude _). set (dg := significant_digits _ _).
  destruct (Z.gtb_spec dg 9999); intros [= <- <- <- <-];
    (split; [done|]); (split; [lia|]);
    destruct (Z.ltb_spec om0 0); cbn; lia.
Qed.

Lemma digit_char n k :
  0 <= n -> 0 < k -> char_of_int (48 + Z.rem (n ÷ k) 10) = char_of_int (48 + (n / k) mod 10).
Proof.
  intros Hn Hk. rewrite Z.quot_div_nonneg by lia.
  rewrite Z.rem_mod_nonneg; [done| |lia]. apply Z.div_pos; lia.
Qed.

(** The exponent-sign position is blank whenever the recorded exponent
    sign is 0 or 1. *)
Lemma fields_exponent_sign is_negative om_is_negative om digits disp :
  0 <= om_is_negative ->
  glyph (print_float_fields is_negative om_is_negative om digits disp) 2 = " "%char.
Proof.
  intros H. unfold print_float_fields.
  destruct (Z.ltb_spec om_is_negative 0); [lia|].
  case_tests; by read_display.
Qed.

Lemma fields_value_sign is_negative om_is_negative om digits disp :
  glyph (print_float_fields is_negative om_is_negative om digits disp) 1 =
  if is_negative =? 0 then " "%char else "-"%char.
Proof.
  unfold print_float_fields.
  case_tests; by read_display.
Qed.

(** Exponents of at most two digits: four digits and the exponent. *)
Lemma fields_in_range is_negative om_is_negative om digits disp :
  let e := if negb (om_is_negative =? 0) then - om else om in
  0 <= digits -> 0 <= e <= 99 ->
  let res := print_float_fields is_negative om_is_negative om digits disp in
  field res 4 4 = decimal 4 digits /\ field res 8 2 = decimal 2 e.
Proof.
  intros e Hd He res. subst res. unfold print_float_fields. fold e.
  destruct (Z.leb_spec e 99); [|lia].
  subst e. destruct (om_is_negative =? 0); cbn [negb] in *;
    case_tests; read_display; decimal_digits;
    rewrite !digit_char by lia; done.
Qed.

(** Exponents of more than two digits: the literal, and the exponent in
    the digit field while it is below 9999. *)
Lemma fields_out_of_range is_negative om_is_negative om digits disp :
  let e := if negb (om_is_negative =? 0) then - om else om in
  99 < e ->
  let res := print_float_fields is_negative om_is_negative om digits disp in
  field res 8 2 = (if om_is_negative =? 0 then "of"%string else "uf"%string) /\
  (e < 9999 -> field res 4 4 = decimal 4 e) /\
  (9999 <= e -> field res 4 4 = "    "%string).
Proof.
  intros e He res. subst res. unfold print_float_fields. fold e.
  destruct (Z.leb_spec e 99); [lia|].
  destruct (Z.ltb_spec e 9999); subst e;
    destruct (om_is_negative =? 0); cbn [negb] in *; case_tests;
    read_display; (split; [done|]); (split; [|intros; try lia; done]); intros;
    try lia; decimal_digits; rewrite ?digit_char by lia; done.
Qed.

(** On a finite nonzero double whose exponent fits two digits, the value
    sign, the four digits and the two-digit absolute exponent are shown in
    their positions. *)
Lemma print_float_in_range d disp is_negative om_is_negative om digits :
  is_special d = false ->
  float_parts d = (is_negative, om_is_negative, om, digits) ->
  0 <= digits -> Z.abs om <= 99 ->
  let res := morsecalc_print_float d disp in
  glyph res 1 = (if (d <? 0)%float then "-"%char else " "%char) /\
  field res 4 4 = decimal 4 digits /\
  field res 8 2 = decimal 2 (Z.abs om).
Proof.
  intros Hs Hp Hd Hom res. subst res.
  rewrite print_float_finite, Hp by done.
  destruct (float_parts_inv _ _ _ _ _ Hp) as (Hneg & _ & Hsign).
  split.
  - rewrite fields_value_sign, Hneg. by destruct (d <? 0)%float.
  - assert ((if negb (om_is_negative =? 0) then - om else om) = Z.abs om) as He.
    { destruct Hsign as [[-> ?]|[-> ?]]; cbn; lia. }
    rewrite <- He. apply fields_in_range; rewrite ?He; lia.
Qed.

(** C9: the special values render as fixed literals.  Zero (of either
    sign) writes the blank-padded "0", NaN writes "nan", positive infinity
    writes "inf", and negative infinity writes "inf" after a '-' in the
    value-sign position; nothing else is written. *)
Theorem print_float_special_values disp :
  (morsecalc_print_float 0 disp = watch_display_string "     0" 4 disp /\
   morsecalc_print_float (-0) disp = watch_display_string "     0" 4 disp /\
   field (morsecalc_print_float 0 disp) 4 6 = "     0"%string) /\
  (morsecalc_print_float nan disp = watch_display_string "   nan" 4 disp /\
   field (morsecalc_print_float nan disp) 4 6 = "   nan"%string) /\
  (morsecalc_print_float infinity disp = watch_display_string "   inf" 4 disp /\
   field (morsecalc_print_float infinity disp) 4 6 = "   inf"%string) /\
  (morsecalc_print_float neg_infinity disp =
     watch_display_string "   inf" 4 (watch_display_character "-" 1 disp) /\
   glyph (morsecalc_print_float neg_infinity disp) 1 = "-"%char /\
   field (morsecalc_print_float neg_infinity disp) 4 6 = "   inf"%string).
Proof.
  unfold morsecalc_print_float. cbn.
  repeat split; by read_display.
Qed.

(** C1: on every finite nonzero double, whatever its order of magnitude,
    the exponent-sign position is left blank: the test of line 75 compares
    the flag [om_is_negative], which is 0 or 1, with [< 0].  A negative
    exponent is therefore never marked with '-'. *)
Theorem print_float_exponent_sign_blank d disp :
  is_special d = false ->
  glyph (morsecalc_print_float d disp) 2 = " "%char.
Proof.
  intros Hs. rewrite print_float_finite by done.
  destruct (float_parts d) as [[[is_negative om_is_negative] om] digits] eqn:Hp.
  apply fields_exponent_sign.
  destruct (float_parts_inv _ _ _ _ _ Hp) as (_ & _ & [[-> _]|[-> _]]); lia.
Qed.

(** C3: the rounding carry.  When the rounded digits of a finite nonzero
    double exceed 9999, the formatter continues with digits 1000 and the
    order of magnitude plus one; if that exponent fits two digits the digit
    positions show "1000" and the exponent positions show the absolute
    value of the incremented exponent. *)
Theorem print_float_rounding_carry d disp :
  let om0 := order_of_magnitude (magnitude d) in
  is_special d = false ->
  9999 < significant_digits (magnitude d) om0 ->
  float_parts d = (Z.b2z (d <? 0)%float, Z.b2z (om0 <? 0), om0 + 1, 1000) /\
  morsecalc_print_float d disp =
    print_float_fields (Z.b2z (d <? 0)%float) (Z.b2z (om0 <? 0)) (om0 + 1) 1000 disp /\
  (Z.abs (om0 + 1) <= 99 ->
   field (morsecalc_print_float d disp) 4 4 = "1000"%string /\
   field (morsecalc_print_float d disp) 8 2 = decimal 2 (Z.abs (om0 + 1))).
Proof.
  intros om0 Hs Hc.
  assert (float_parts d = (Z.b2z (d <? 0)%float, Z.b2z (om0 <? 0), om0 + 1, 1000)) as Hp.
  { rewrite float_parts_eq. cbv zeta. fold om0.
    destruct (Z.gtb_spec (significant_digits (magnitude d) om0) 9999); [done|lia]. }
  split; [done|]. split.
  - by rewrite print_float_finite, Hp.
  - intros Hom.
    destruct (print_float_in_range d disp _ _ _ _ Hs Hp) as (_ & Hd & He); [lia|lia|].
    by rewrite Hd, He.
Qed.

(** C4: exponents that do not fit two digits.  For a finite nonzero double
    whose order of magnitude, as left at line 72, exceeds 99 in absolute
    value, the exponent positions show "uf" when it is negative and "of"
    when it is positive, and the digit positions show the four decimal
    digits of the absolute exponent instead of the significant figures.
    The order of magnitude of a binary64 lies between -324 and 308 (the
    source notes that the largest double is below 2e308), which is what
    the bound on [om] records; the guard of line 92, [om<9999], then
    always succeeds. *)
Theorem print_float_out_of_range d disp is_negative om_is_negative om digits :
  is_special d = false ->
  float_parts d = (is_negative, om_is_negative, om, digits) ->
  Z.abs om <= 324 ->
  99 < Z.abs om ->
  let res := morsecalc_print_float d disp in
  field res 8 2 = (if om <? 0 then "uf"%string else "of"%string) /\
  (Z.abs om < 10000 -> field res 4 4 = decimal 4 (Z.abs om)).
Proof.
  intros Hs Hp Hr Hom res. subst res.
  rewrite print_float_finite, Hp by done.
  destruct (float_parts_inv _ _ _ _ _ Hp) as (_ & _ & Hsign).
  assert ((if negb (om_is_negative =? 0) then - om else om) = Z.abs om) as He.
  { destruct Hsign as [[-> ?]|[-> ?]]; cbn; lia. }
  destruct (fields_out_of_range is_negative om_is_negative om digits disp)
    as (Hlit & Hdig & _); [lia|].
  rewrite He in Hdig. split.
  - rewrite Hlit. destruct Hsign as [[-> ?]|[-> ?]]; cbn;
      destruct (Z.ltb_spec om 0); first [done|lia].
  - intros _. apply Hdig. lia.
Qed.

(** The guard of line 92 in general: the exponent is shown in the digit
    field while it is below 9999, and the field is blank from 9999 on. *)
Lemma print_float_exponent_guard d disp is_negative om_is_negative om digits :
  is_special d = false ->
  float_parts d = (is_negative, om_is_negative, om, digits) ->
  99 < Z.abs om ->
  let res := morsecalc_print_float d disp in
  (Z.abs om < 9999 -> field res 4 4 = decimal 4 (Z.abs om)) /\
  (9999 <= Z.abs om -> field res 4 4 = "    "%string).
Proof.
  intros Hs Hp Hom res. subst res.
  rewrite print_float_finite, Hp by done.
  destruct (float_parts_inv _ _ _ _ _ Hp) as (_ & _ & Hsign).
  assert ((if negb (om_is_negative =? 0) then - om else om) = Z.abs om) as He.
  { destruct Hsign as [[-> ?]|[-> ?]]; cbn; lia. }
  destruct (fields_out_of_range is_negative om_is_negative om digits disp)
    as (_ & Hdig & Hblank); [lia|].
  rewrite He in Hdig, Hblank. done.
Qed.

End FloatFormatter.

Lemma c_str_replicate_NUL n : c_str (replicate n NUL) = [].
Proof. by destruct n. Qed.


Lemma print_errors_cases status disp :
  (status = 0 -> morsecalc_print_errors status disp = disp) /\
  (status = -1 -> morsecalc_print_errors status disp = watch_display_string "cmderr" 4 disp) /\
  (status = -2 -> morsecalc_print_errors status disp = watch_display_string "stkerr" 4 disp) /\
  (status <> 0 -> status <> -1 -> status <> -2 ->
   morsecalc_print_errors status disp = watch_display_string "   err" 4 disp).
Proof.
  unfold morsecalc_print_errors, error_literal.
  repeat split; intros; subst; try done.
  destruct (Z.eqb_spec status 0); [done|].
  destruct (Z.eqb_spec status (-1)); [done|].
  by destruct (Z.eqb_spec status (-2)).
Qed.

Section Dispatcher.

Context {M : MathLib} {L : MorseCalcLib}.

(** What [morsecalc_input] does on a completed character that decodes to
    the submit character. *)
Lemma input_submit mcs disp :
  mc_dec (mc_b (mcs_mc mcs)) = " "%char ->
  morsecalc_input_dispatch mcs "x" disp =
  let r := calc_input (mcs_cs mcs) (mcs_token mcs) in
  let mcs' := {| mcs_cs := r.2;
                 mcs_mc := mc_reset (mcs_mc mcs);
                 mcs_token := replicate (Z.to_nat MORSECALC_TOKEN_LEN) NUL;
                 mcs_idxt := 0 |} in
  (r.1, mcs', morsecalc_print_stack mcs' disp).
Proof.
  intros Hdec. unfold morsecalc_input_dispatch. cbn [Ascii.eqb Bool.eqb negb with_mc mcs_mc].
  rewrite Hdec. cbn [Ascii.eqb Bool.eqb NUL Ascii.zero].
  cbn [mcs_cs mcs_token]. by destruct (calc_input _ _).
Qed.

Lemma input_on_submit mcs disp :
  mc_dec (mc_b (mcs_mc mcs)) = " "%char ->
  morsecalc_input mcs "x" disp =
  let r := calc_input (mcs_cs mcs) (mcs_token mcs) in
  let mcs' := {| mcs_cs := r.2;
                 mcs_mc := mc_reset (mcs_mc mcs);
                 mcs_token := replicate (Z.to_nat MORSECALC_TOKEN_LEN) NUL;
                 mcs_idxt := 0 |} in
  (mcs', morsecalc_print_errors r.1 (morsecalc_print_stack mcs' disp)).
Proof. intros Hdec. unfold morsecalc_input. by rewrite input_submit. Qed.

(** C2 (as amended): re-activation resets the symbol buffer to empty and
    leaves the token buffer, its logical length and the calculator stack
    unchanged. *)
Theorem activate_resets_symbols_only mcs disp :
  let mcs' := (morsecalc_face_activate mcs disp).1 in
  mc_b (mcs_mc mcs') = [] /\ mc_bidx (mcs_mc mcs') = 0 /\
  mcs_token mcs' = mcs_token mcs /\ mcs_idxt mcs' = mcs_idxt mcs /\
  mcs_cs mcs' = mcs_cs mcs.
Proof. done. Qed.

(** C5: a completed character that decodes to the submit character hands
    the token buffer to the calculator, clears the token buffer and renders
    the stack view; the token buffer is cleared whatever status the
    calculator returns. *)
Theorem submit_forwards_and_clears mcs disp :
  mc_dec (mc_b (mcs_mc mcs)) = " "%char ->
  let r := calc_input (mcs_cs mcs) (mcs_token mcs) in
  let mcs' := {| mcs_cs := r.2;
                 mcs_mc := mc_reset (mcs_mc mcs);
                 mcs_token := replicate (Z.to_nat MORSECALC_TOKEN_LEN) NUL;
                 mcs_idxt := 0 |} in
  morsecalc_input mcs "x" disp =
    (mcs', morsecalc_print_errors r.1 (morsecalc_print_stack mcs' disp)) /\
  c_str (mcs_token mcs') = [] /\ mcs_idxt mcs' = 0.
Proof.
  intros Hdec r mcs'. rewrite input_on_submit by done.
  split; [done|]. split; [apply c_str_replicate_NUL|done].
Qed.

(** C6: on submit, the calculator's status selects exactly one outcome:
    0 leaves the stack view as it is, -1 writes "cmderr" over its main
    field, -2 writes "stkerr", and any other status writes "   err". *)
Theorem status_display_outcome mcs disp :
  mc_dec (mc_b (mcs_mc mcs)) = " "%char ->
  let status := (calc_input (mcs_cs mcs) (mcs_token mcs)).1 in
  let stack_view := morsecalc_print_stack (morsecalc_input mcs "x" disp).1 disp in
  let out := (morsecalc_input mcs "x" disp).2 in
  (status = 0 -> out = stack_view) /\
  (status = -1 ->
   out = watch_display_string "cmderr" 4 stack_view /\ field out 4 6 = "cmderr"%string) /\
  (status = -2 ->
   out = watch_display_string "stkerr" 4 stack_view /\ field out 4 6 = "stkerr"%string) /\
  (status <> 0 -> status <> -1 -> status <> -2 ->
   out = watch_display_string "   err" 4 stack_view /\ field out 4 6 = "   err"%string).
Proof.
  intros Hdec status stack_view out. subst stack_view out.
  rewrite input_on_submit by done. cbn [fst snd].
  fold status.
  destruct (print_errors_cases status
              (morsecalc_print_stack
                 {| mcs_cs := (calc_input (mcs_cs mcs) (mcs_token mcs)).2;
                    mcs_mc := mc_reset (mcs_mc mcs);
                    mcs_token := replicate (Z.to_nat MORSECALC_TOKEN_LEN) NUL;
                    mcs_idxt := 0 |} disp)) as (E0 & E1 & E2 & E3).
  repeat split; intros;
    rewrite ?E0, ?E1, ?E2, ?E3 by done; first [done | by read_display].
Qed.

(** C7: an append on a token buffer at capacity leaves the token and its
    logical length as they are and shows "  full" in the main field; the
    character is dropped. *)
Theorem append_when_full mcs disp :
  let dec := mc_dec (mc_b (mcs_mc mcs)) in
  dec <> NUL -> dec <> " "%char -> dec <> "("%char -> dec <> "S"%char ->
  mcs_idxt mcs = MORSECALC_TOKEN_LEN - 1 ->
  let mcs' := (morsecalc_input mcs "x" disp).1 in
  let out := (morsecalc_input mcs "x" disp).2 in
  mcs_token mcs' = mcs_token mcs /\ mcs_idxt mcs' = mcs_idxt mcs /\
  mcs_cs mcs' = mcs_cs mcs /\
  out = watch_display_string "  full" 4 disp /\ field out 4 6 = "  full"%string.
Proof.
  intros dec H0 H1 H2 H3 Hfull mcs' out. subst mcs' out.
  unfold morsecalc_input, morsecalc_input_dispatch.
  cbn [Ascii.eqb Bool.eqb negb]. fold dec.
  apply Ascii.eqb_neq in H0, H1, H2, H3. rewrite H0, H1, H2, H3.
  cbn [with_mc mcs_idxt]. rewrite Hfull, Z.ltb_irrefl.
  cbn [fst snd].
  change (morsecalc_print_errors 0 ?d) with d.
  repeat split; first [done | by read_display].
Qed.

(** C8: the stack view selects an index between 0 and 9 (the decoded digit,
    else 0); when the index is not below the depth [s] it shows " empty" and
    reads no stack item, and otherwise it reads [stack[s-1-idx]] only, a
    subscript between 0 and [s-1], and formats that item. *)
Theorem print_stack_subscript_in_range mcs disp :
  let c := int_of_char (mc_dec (mc_b (mcs_mc mcs))) in
  let s := cs_s (mcs_cs mcs) in
  let idx := stack_view_idx mcs in
  idx = (if (48 <=? c) && (c <=? 57) then c - 48 else 0) /\
  0 <= idx <= 9 /\
  (s <= idx ->
   stack_view_subscript mcs = None /\
   field (morsecalc_print_stack mcs disp) 4 6 = " empty"%string) /\
  (idx < s ->
   stack_view_subscript mcs = Some (s - 1 - idx) /\ 0 <= s - 1 - idx <= s - 1 /\
   morsecalc_print_stack mcs disp =
     watch_display_character (char_of_int (48 + s)) 3
       (watch_display_character (char_of_int (48 + idx)) 0
          (morsecalc_print_float (stack_at (mcs_cs mcs) (s - 1 - idx))
             (watch_display_string "          " 0 disp)))) /\
  (forall i, stack_view_subscript mcs = Some i -> 0 <= i <= s - 1).
Proof.
  intros c s idx.
  assert (idx = (if (48 <=? c) && (c <=? 57) then c - 48 else 0) /\ 0 <= idx <= 9)
    as [Hidx Hr].
  { subst idx. unfold stack_view_idx. fold c.
    destruct (Z.leb_spec 48 c), (Z.leb_spec c 57); cbn [andb]; try lia.
    rewrite Z.mod_small by lia. lia. }
  split; [done|]. split; [done|].
  unfold stack_view_subscript, morsecalc_print_stack. fold idx s.
  unfold stack_view_subscript. fold idx s.
  destruct (Z.geb_spec idx s); repeat split; intros; try lia; try done.
  - by read_display.
  - simplify_eq. lia.
  - simplify_eq. lia.
Qed.

(** The status left by the dispatch: the calculator's on a submit, 0 on
    every other event. *)
Lemma dispatch_status mcs c disp :
  (morsecalc_input_dispatch mcs c disp).1.1 =
  if Ascii.eqb c "x" && Ascii.eqb (mc_dec (mc_b (mcs_mc mcs))) " "
  then (calc_input (mcs_cs mcs) (mcs_token mcs)).1 else 0.
Proof.
  unfold morsecalc_input_dispatch.
  destruct (Ascii.eqb c "x"); cbn [negb andb]; [|done].
  destruct (Ascii.eqb_spec (mc_dec (mc_b (mcs_mc mcs))) NUL) as [->|_]; [done|].
  destruct (Ascii.eqb (mc_dec (mc_b (mcs_mc mcs))) " ").
  - cbn [with_mc mcs_cs mcs_token]. by destruct (calc_input _ _).
  - by repeat case_match.
Qed.


End Dispatcher.


(** The formatter run on -0.00271: negative value, order of magnitude -3,
    digits 2710, and a blank where the exponent sign belongs. *)
Lemma print_float_exponent_sign_blank_witness :
  is_special (-0.00271) = false /\
  float_parts (-0.00271) = (1, 1, -3, 2710) /\
  render (morsecalc_print_float (-0.00271) ∅) = " -  271003"%string /\
  glyph (morsecalc_print_float (-0.00271) ∅) 2 = " "%char.
Proof.
  split; [vm_compute; reflexivity|].
  split; [vm_compute; reflexivity|].
  split; [vm_compute; reflexivity|].
  apply (print_float_exponent_sign_blank (M := ref_math)). vm_compute; reflexivity.
Defined.

(** The formatter run on 9.9996: the digits round to 10000 and are shown
    as 1000 with exponent 01. *)
Lemma print_float_rounding_carry_witness :
  (is_special 9.9996 = false /\
   order_of_magnitude (magnitude 9.9996) = 0 /\
   significant_digits (magnitude 9.9996) 0 = 10000) /\
  float_parts 9.9996 = (0, 0, 1, 1000) /\
  field (morsecalc_print_float 9.9996 ∅) 4 4 = "1000"%string /\
  field (morsecalc_print_float 9.9996 ∅) 8 2 = "01"%string.
Proof.
  split; [repeat split; vm_compute; reflexivity|].
  destruct (print_float_rounding_carry (M := ref_math) 9.9996 ∅) as (Hp & _ & Hf).
  - vm_compute; reflexivity.
  - vm_compute; reflexivity.
  - split; [exact Hp|]. apply Hf. vm_compute. discriminate.
Defined.

(** The formatter run on 1e-200: "uf" and the exponent 0200. *)
Lemma print_float_out_of_range_witness :
  (is_special 1e-200 = false /\ float_parts 1e-200 = (0, 1, -200, 1000)) /\
  field (morsecalc_print_float 1e-200 ∅) 8 2 = "uf"%string /\
  field (morsecalc_print_float 1e-200 ∅) 4 4 = "0200"%string.
Proof.
  split; [split; vm_compute; reflexivity|].
  destruct (print_float_out_of_range (M := ref_math) 1e-200 ∅ 0 1 (-200) 1000)
    as (Hlit & Hdig).
  - vm_compute; reflexivity.
  - vm_compute; reflexivity.
  - vm_compute. discriminate.
  - reflexivity.
  - split; [exact Hlit|]. apply Hdig. reflexivity.
Defined.

(** Re-activation with "12" typed: the token is still "12" afterwards, so
    the token buffer is not reset to empty. *)
Lemma activate_keeps_token :
  let mcs := session EmptyString "12" [3%float] in
  let mcs' := (morsecalc_face_activate mcs ∅).1 in
  c_str (mcs_token mcs') = list_ascii_of_string "12" /\
  ~ (mc_b (mcs_mc mcs') = [] /\ c_str (mcs_token mcs') = [] /\ mcs_cs mcs' = mcs_cs mcs).
Proof.
  cbv zeta. split; [reflexivity|]. intros (_ & Htoken & _). discriminate Htoken.
Qed.

(** Submitting "12": the calculator takes the token, the token buffer is
    empty afterwards and the stack view shows the new top of stack. *)
Lemma submit_forwards_and_clears_witness :
  mc_dec (mc_b (mcs_mc (session EmptyString "12" []))) = " "%char /\
  c_str (mcs_token (morsecalc_input (session EmptyString "12" []) "x" ∅).1) = [] /\
  cs_s (mcs_cs (morsecalc_input (session EmptyString "12" []) "x" ∅).1) = 1 /\
  render (morsecalc_input (session EmptyString "12" []) "x" ∅).2 = "0  1120001"%string.
Proof.
  split; [reflexivity|].
  destruct (submit_forwards_and_clears (M := ref_math) (L := sample_lib)
              (session EmptyString "12" []) ∅) as (Heq & Hc & _); [reflexivity|].
  rewrite Heq. split; [exact Hc|]. split; vm_compute; reflexivity.
Defined.

(** Submitting the unknown word "ho": status -1, shown as "cmderr". *)
Lemma status_display_outcome_witness :
  mc_dec (mc_b (mcs_mc (session EmptyString "ho" []))) = " "%char /\
  (calc_input (mcs_cs (session EmptyString "ho" []))
              (mcs_token (session EmptyString "ho" []))).1 = -1 /\
  field (morsecalc_input (session EmptyString "ho" []) "x" ∅).2 4 6 = "cmderr"%string.
Proof.
  split; [reflexivity|]. split; [reflexivity|].
  destruct (status_display_outcome (M := ref_math) (L := sample_lib)
              (session EmptyString "ho" []) ∅) as (_ & H & _); [reflexivity|].
  apply H. reflexivity.
Defined.

(** A ninth character on a token of eight, with a capacity of nine: the
    token stays "12345678" and "  full" is shown. *)
Lemma append_when_full_witness :
  mc_dec (mc_b (mcs_mc (session "." "12345678" []))) = "e"%char /\
  mcs_idxt (session "." "12345678" []) = MORSECALC_TOKEN_LEN - 1 /\
  mcs_token (morsecalc_input (session "." "12345678" []) "x" ∅).1 =
    mcs_token (session "." "12345678" []) /\
  field (morsecalc_input (session "." "12345678" []) "x" ∅).2 4 6 = "  full"%string.
Proof.
  split; [reflexivity|]. split; [reflexivity|].
  destruct (append_when_full (M := ref_math) (L := sample_lib)
              (session "." "12345678" []) ∅) as (Ht & _ & _ & _ & Hf);
    [discriminate|discriminate|discriminate|discriminate|reflexivity|].
  split; [exact Ht|exact Hf].
Defined.


(** ** Sessions run on the sample library *)

Example format_examples :
  render (morsecalc_print_float 3.14159 ∅) = "    314200"%string /\
  render (morsecalc_print_float 1e100 ∅) = "    0100of"%string /\
  render (morsecalc_print_float neg_infinity ∅) = " -     inf"%string.
Proof. repeat split; vm_compute; reflexivity. Qed.

(** "h", "o", then submit: the calculator rejects the word, "cmderr" is
    shown and the token is empty afterwards. *)
Example session_unknown_word :
  let r := run (list_ascii_of_string "....x---xx") (session EmptyString EmptyString []) ∅ in
  render r.2 = "0  0cmderr"%string /\ c_str (mcs_token r.1) = [] /\ cs_s (mcs_cs r.1) = 0.
Proof. repeat split; vm_compute; reflexivity. Qed.

(** "1", "2", then submit: one more item on the stack, shown by the stack
    view through the formatter. *)
Example session_number :
  let r := run (list_ascii_of_string ".----x..---xx") (session EmptyString EmptyString []) ∅ in
  render r.2 = "0  1120001"%string /\ c_str (mcs_token r.1) = [] /\ cs_s (mcs_cs r.1) = 1.
Proof. repeat split; vm_compute; reflexivity. Qed.

(** ** The token buffer *)

Lemma c_str_text t k : Forall (fun c => c <> NUL) t -> c_str (t ++ replicate k NUL) = t.
Proof.
  induction 1 as [|c t Hc _ IH]; cbn [app c_str].
  - apply c_str_replicate_NUL.
  - apply Ascii.eqb_neq in Hc. by rewrite Hc, IH.
Qed.

Lemma input_state `{MathLib, MorseCalcLib} mcs c disp :
  (morsecalc_input mcs c disp).1 = (morsecalc_input_dispatch mcs c disp).1.2.
Proof. unfold morsecalc_input. by destruct (morsecalc_input_dispatch _ _ _) as [[? ?] ?]. Qed.

Lemma input_display `{MathLib, MorseCalcLib} mcs c disp :
  (morsecalc_input mcs c disp).2 =
  morsecalc_print_errors (morsecalc_input_dispatch mcs c disp).1.1
                         (morsecalc_input_dispatch mcs c disp).2.
Proof. unfold morsecalc_input. by destruct (morsecalc_input_dispatch _ _ _) as [[? ?] ?]. Qed.

Section TokenBuffer.

Context {M : MathLib} {L : MorseCalcLib}.

Lemma token_holds_text t mcs :
  token_holds t mcs ->
  c_str (mcs_token mcs) = t /\ strlen (mcs_token mcs) = mcs_idxt mcs.
Proof.
  intros (Ht & _ & Htok & Hidx). unfold strlen.
  rewrite Htok, c_str_text by done. by rewrite Hidx.
Qed.

Lemma token_holds_reset mcs :
  0 < MORSECALC_TOKEN_LEN -> token_holds [] (morsecalc_reset_token mcs).
Proof.
  intros Hlen. unfold token_holds. cbn [morsecalc_reset_token mcs_token mcs_idxt length app].
  rewrite Nat.sub_0_r. repeat split; [constructor|lia].
Qed.

Lemma token_holds_with_mc t mcs mc : token_holds t mcs -> token_holds t (with_mc mcs mc).
Proof. done. Qed.

(** The state after a completed character that decodes to a character
    of the token, when there is room. *)
Lemma dispatch_append mcs disp :
  let dec := mc_dec (mc_b (mcs_mc mcs)) in
  dec <> NUL -> dec <> " "%char -> dec <> "("%char -> dec <> "S"%char ->
  mcs_idxt mcs < MORSECALC_TOKEN_LEN - 1 ->
  (morsecalc_input mcs "x" disp).1 =
  {| mcs_cs := mcs_cs mcs;
     mcs_mc := mc_reset (mcs_mc mcs);
     mcs_token := <[Z.to_nat (mcs_idxt mcs) := dec]> (mcs_token mcs);
     mcs_idxt := (mcs_idxt mcs + 1) mod 256 |}.
Proof.
  intros dec H0 H1 H2 H3 Hroom. rewrite input_state.
  unfold morsecalc_input_dispatch. cbn [Ascii.eqb Bool.eqb negb]. fold dec.
  apply Ascii.eqb_neq in H0, H1, H2, H3. rewrite H0, H1, H2, H3.
  cbn [with_mc mcs_idxt mcs_token].
  destruct (Z.ltb_spec (mcs_idxt mcs) (MORSECALC_TOKEN_LEN - 1)); [done|lia].
Qed.

(** The state after a completed character that decodes to the erase
    command. *)
Lemma dispatch_erase mcs disp :
  mc_dec (mc_b (mcs_mc mcs)) = "("%char ->
  (morsecalc_input mcs "x" disp).1 =
  if mcs_idxt mcs >? 0 then
    {| mcs_cs := mcs_cs mcs;
       mcs_mc := mc_reset (mcs_mc mcs);
       mcs_token := <[Z.to_nat ((mcs_idxt mcs - 1) mod 256) := NUL]> (mcs_token mcs);
       mcs_idxt := (mcs_idxt mcs - 1) mod 256 |}
  else with_mc mcs (mc_reset (mcs_mc mcs)).
Proof.
  intros Hdec. rewrite input_state.
  unfold morsecalc_input_dispatch. cbn [Ascii.eqb Bool.eqb negb]. rewrite Hdec.
  cbn [Ascii.eqb Bool.eqb NUL Ascii.zero with_mc mcs_idxt mcs_token].
  by destruct (mcs_idxt mcs >? 0).
Qed.

Lemma dispatch_symbol mcs c disp :
  c <> "x"%char ->
  (morsecalc_input mcs c disp).1 = with_mc mcs (mc_input (mcs_mc mcs) c).
Proof.
  intros Hc. rewrite input_state. unfold morsecalc_input_dispatch.
  apply Ascii.eqb_neq in Hc. by rewrite Hc.
Qed.

Lemma dispatch_invalid mcs disp :
  mc_dec (mc_b (mcs_mc mcs)) = NUL ->
  (morsecalc_input mcs "x" disp).1 = with_mc mcs (mc_reset (mcs_mc mcs)).
Proof.
  intros Hdec. rewrite input_state. unfold morsecalc_input_dispatch.
  cbn [Ascii.eqb Bool.eqb negb]. by rewrite Hdec.
Qed.

Lemma dispatch_clear mcs disp :
  mc_dec (mc_b (mcs_mc mcs)) = "S"%char ->
  morsecalc_input mcs "x" disp =
  let mcs' := morsecalc_reset_token (with_mc mcs (mc_reset (mcs_mc mcs))) in
  (mcs', morsecalc_print_stack mcs' disp).
Proof.
  intros Hdec. unfold morsecalc_input, morsecalc_input_dispatch.
  cbn [Ascii.eqb Bool.eqb negb]. by rewrite Hdec.
Qed.

Lemma dispatch_full mcs disp :
  let dec := mc_dec (mc_b (mcs_mc mcs)) in
  dec <> NUL -> dec <> " "%char -> dec <> "("%char -> dec <> "S"%char ->
  MORSECALC_TOKEN_LEN - 1 <= mcs_idxt mcs ->
  (morsecalc_input mcs "x" disp).1 = with_mc mcs (mc_reset (mcs_mc mcs)).
Proof.
  intros dec H0 H1 H2 H3 Hfull. rewrite input_state.
  unfold morsecalc_input_dispatch. cbn [Ascii.eqb Bool.eqb negb]. fold dec.
  apply Ascii.eqb_neq in H0, H1, H2, H3. rewrite H0, H1, H2, H3.
  cbn [with_mc mcs_idxt].
  destruct (Z.ltb_spec (mcs_idxt mcs) (MORSECALC_TOKEN_LEN - 1)); [lia|done].
Qed.

Lemma holds_after_append t mcs disp :
  let dec := mc_dec (mc_b (mcs_mc mcs)) in
  token_holds t mcs ->
  MORSECALC_TOKEN_LEN <= 256 ->
  dec <> NUL -> dec <> " "%char -> dec <> "("%char -> dec <> "S"%char ->
  mcs_idxt mcs < MORSECALC_TOKEN_LEN - 1 ->
  token_holds (t ++ [dec]) (morsecalc_input mcs "x" disp).1.
Proof.
  intros dec Hold Hcap H0 H1 H2 H3 Hroom.
  rewrite dispatch_append by done.
  destruct Hold as (Ht & Hlen & Htok & Hidx).
  unfold token_holds. cbn [mcs_token mcs_idxt].
  rewrite length_app. cbn [length]. rewrite Hidx in *.
  repeat split.
  - apply Forall_app. split; [done|]. by constructor.
  - lia.
  - rewrite Htok, Nat2Z.id, insert_app_r_alt, Nat.sub_diag by lia.
    destruct (Z.to_nat MORSECALC_TOKEN_LEN - length t)%nat as [|k] eqn:Hk; [lia|].
    cbn. rewrite <- app_assoc. cbn. do 3 f_equal. lia.
  - rewrite Z.mod_small by lia. lia.
Qed.

Lemma holds_after_erase t mcs disp :
  token_holds t mcs ->
  MORSECALC_TOKEN_LEN <= 256 ->
  mc_dec (mc_b (mcs_mc mcs)) = "("%char ->
  token_holds (removelast t) (morsecalc_input mcs "x" disp).1 /\
  mcs_cs (morsecalc_input mcs "x" disp).1 = mcs_cs mcs.
Proof.
  intros Hold Hcap Hdec. rewrite dispatch_erase by done.
  destruct Hold as (Ht & Hlen & Htok & Hidx).
  induction t as [|c0 t0 _] using rev_ind.
  - cbn [length] in Hidx. rewrite Hidx. cbn. split; [|done].
    repeat split; [constructor|done|done|done].
  - rewrite removelast_last.
    rewrite length_app in Hidx, Hlen, Htok. cbn [length] in Hidx, Hlen, Htok.
    destruct (Z.gtb_spec (mcs_idxt mcs) 0); [|lia].
    split; [|done]. unfold token_holds. cbn [mcs_token mcs_idxt].
    apply Forall_app in Ht as [Ht _].
    assert ((mcs_idxt mcs - 1) mod 256 = Z.of_nat (length t0)) as ->.
    { rewrite Hidx, Z.mod_small by lia. lia. }
    repeat split; [done|lia|].
    rewrite Htok, Nat2Z.id, insert_app_l by (rewrite length_app; cbn; lia).
    rewrite insert_app_r_alt, Nat.sub_diag by lia. cbn.
    rewrite <- app_assoc. cbn.
    replace (Z.to_nat MORSECALC_TOKEN_LEN - length t0)%nat
      with (S (Z.to_nat MORSECALC_TOKEN_LEN - (length t0 + 1)))%nat by lia.
    done.
Qed.

(** Every input keeps the token buffer terminated. *)
Lemma holds_after_input mcs c disp :
  MORSECALC_TOKEN_LEN <= 256 ->
  (exists t, token_holds t mcs) ->
  exists t, token_holds t (morsecalc_input mcs c disp).1.
Proof.
  intros Hcap [t Hold].
  assert (0 < MORSECALC_TOKEN_LEN) as Hpos by (destruct Hold as (_ & ? & _); lia).
  destruct (Ascii.eqb_spec c "x") as [->|Hc].
  2: { exists t. by rewrite dispatch_symbol. }
  destruct (Ascii.eqb_spec (mc_dec (mc_b (mcs_mc mcs))) NUL) as [H0|H0].
  { exists t. by rewrite dispatch_invalid. }
  destruct (Ascii.eqb_spec (mc_dec (mc_b (mcs_mc mcs))) " ") as [H1|H1].
  { exists []. rewrite input_on_submit by done. cbn [fst].
    unfold token_holds. cbn [mcs_token mcs_idxt length app].
    rewrite Nat.sub_0_r. repeat split; [constructor|lia]. }
  destruct (Ascii.eqb_spec (mc_dec (mc_b (mcs_mc mcs))) "(") as [H2|H2].
  { exists (removelast t). by apply holds_after_erase. }
  destruct (Ascii.eqb_spec (mc_dec (mc_b (mcs_mc mcs))) "S") as [H3|H3].
  { exists []. rewrite dispatch_clear by done. by apply token_holds_reset. }
  destruct (Z.lt_ge_cases (mcs_idxt mcs) (MORSECALC_TOKEN_LEN - 1)).
  - eexists. by apply holds_after_append.
  - exists t. by rewrite dispatch_full.
Qed.

Lemma holds_after_loop ev mcs disp :
  MORSECALC_TOKEN_LEN <= 256 ->
  (exists t, token_holds t mcs) ->
  exists t, token_holds t (lr_mcs (morsecalc_face_loop ev mcs disp)).
Proof.
  intros Hcap Hold. destruct ev; cbn [morsecalc_face_loop lr_mcs];
    first [done | by apply holds_after_input].
Qed.

(** X1: appending.  When the token buffer holds [t] with room for one more
    character, a completed character that decodes to an ordinary character
    leaves the buffer holding [t] followed by that character, still
    terminated, and leaves the calculator alone. *)
Theorem input_appends t mcs disp :
  let dec := mc_dec (mc_b (mcs_mc mcs)) in
  token_holds t mcs ->
  MORSECALC_TOKEN_LEN <= 256 ->
  dec <> NUL -> dec <> " "%char -> dec <> "("%char -> dec <> "S"%char ->
  mcs_idxt mcs < MORSECALC_TOKEN_LEN - 1 ->
  let mcs' := (morsecalc_input mcs "x" disp).1 in
  token_holds (t ++ [dec]) mcs' /\
  c_str (mcs_token mcs') = t ++ [dec] /\
  mcs_cs mcs' = mcs_cs mcs.
Proof.
  intros dec Hold Hcap H0 H1 H2 H3 Hroom mcs'.
  pose proof (holds_after_append t mcs disp Hold Hcap H0 H1 H2 H3 Hroom) as Hnew.
  split; [done|]. split; [apply (token_holds_text _ _ Hnew)|].
  subst mcs'. by rewrite dispatch_append.
Qed.

(** X2: erasing.  When the token buffer holds [t], a completed character
    that decodes to the erase command leaves it holding [t] without its
    last character; on an empty token nothing changes (the index does not
    go below zero).  The calculator is left alone. *)
Theorem input_erases_last t mcs disp :
  token_holds t mcs ->
  MORSECALC_TOKEN_LEN <= 256 ->
  mc_dec (mc_b (mcs_mc mcs)) = "("%char ->
  let mcs' := (morsecalc_input mcs "x" disp).1 in
  token_holds (removelast t) mcs' /\
  c_str (mcs_token mcs') = removelast t /\
  mcs_cs mcs' = mcs_cs mcs.
Proof.
  intros Hold Hcap Hdec mcs'.
  destruct (holds_after_erase t mcs disp Hold Hcap Hdec) as [Hnew Hcs].
  split; [done|]. split; [apply (token_holds_text _ _ Hnew)|done].
Qed.

(** X3: appending a character and then erasing gives back the token buffer
    exactly as it was, array and index; [mc2] is the symbol buffer keyed in
    between, which decodes to the erase command. *)
Theorem append_then_erase t mcs disp mc2 disp2 :
  let dec := mc_dec (mc_b (mcs_mc mcs)) in
  token_holds t mcs ->
  MORSECALC_TOKEN_LEN <= 256 ->
  dec <> NUL -> dec <> " "%char -> dec <> "("%char -> dec <> "S"%char ->
  mcs_idxt mcs < MORSECALC_TOKEN_LEN - 1 ->
  mc_dec (mc_b mc2) = "("%char ->
  let mcs1 := (morsecalc_input mcs "x" disp).1 in
  let mcs2 := (morsecalc_input (with_mc mcs1 mc2) "x" disp2).1 in
  mcs_token mcs2 = mcs_token mcs /\ mcs_idxt mcs2 = mcs_idxt mcs /\
  mcs_cs mcs2 = mcs_cs mcs.
Proof.
  intros dec Hold Hcap H0 H1 H2 H3 Hroom Hdec2 mcs1 mcs2.
  pose proof (holds_after_append t mcs disp Hold Hcap H0 H1 H2 H3 Hroom) as Hmid.
  fold dec mcs1 in Hmid.
  destruct (holds_after_erase (t ++ [dec]) (with_mc mcs1 mc2) disp2) as [Hend Hcs];
    [done|done|done|].
  fold mcs2 in Hend, Hcs. rewrite removelast_last in Hend.
  destruct Hold as (_ & _ & -> & ->). destruct Hend as (_ & _ & -> & ->).
  repeat split. rewrite Hcs. subst mcs1. cbn [with_mc mcs_cs].
  by rewrite dispatch_append.
Qed.

(** X4: from setup on, whatever the events, the token buffer is a
    terminated string: the logical length [idxt] is [strlen] of the array
    and at most the capacity minus one, so no write goes past the array and
    [morsecalc_print_token] never reads past the terminator. *)
Theorem token_terminated_always calc_init fresh events disp mcs0 :
  0 < MORSECALC_TOKEN_LEN <= 256 ->
  morsecalc_face_setup calc_init fresh None = Some mcs0 ->
  let mcs := (run_events events mcs0 disp).1 in
  (exists t, token_holds t mcs) /\
  strlen (mcs_token mcs) = mcs_idxt mcs /\
  0 <= mcs_idxt mcs <= MORSECALC_TOKEN_LEN - 1 /\
  length (mcs_token mcs) = Z.to_nat MORSECALC_TOKEN_LEN.
Proof.
  intros Hcap [= <-] mcs.
  assert (exists t, token_holds t mcs) as [t Hold].
  { subst mcs. unfold run_events.
    match goal with |- context [foldl ?f (?m0, disp) events] =>
      assert (exists t, token_holds t m0) as Hinit;
      [exists []; apply (token_holds_reset fresh); lia|];
      generalize dependent m0 end.
    generalize disp. induction events as [|ev events IH]; intros d m0 Hinit; [done|].
    cbn [foldl fst snd]. apply IH. apply holds_after_loop; [lia|done]. }
  split; [by exists t|].
  destruct (token_holds_text _ _ Hold) as [_ Hlen]. split; [done|].
  destruct Hold as (_ & Ht & Htok & Hidx). split; [lia|].
  rewrite Htok, length_app, length_replicate. lia.
Qed.

(** X5: clearing.  A completed character that decodes to the clear command
    empties the token buffer and renders the stack view; the calculator is
    not consulted: its state is unchanged and no error is shown. *)
Theorem input_clears mcs disp :
  mc_dec (mc_b (mcs_mc mcs)) = "S"%char ->
  0 < MORSECALC_TOKEN_LEN ->
  let mcs' := (morsecalc_input mcs "x" disp).1 in
  token_holds [] mcs' /\ c_str (mcs_token mcs') = [] /\
  mcs_cs mcs' = mcs_cs mcs /\
  (morsecalc_input mcs "x" disp).2 = morsecalc_print_stack mcs' disp.
Proof.
  intros Hdec Hpos mcs'. subst mcs'. rewrite dispatch_clear by done. cbn [fst snd].
  split; [by apply token_holds_reset|].
  split; [apply c_str_replicate_NUL|done].
Qed.

(** X6: the calculator state after an event is the calculator's answer to
    the token when the event is a mode-button release on a symbol buffer
    that decodes to the submit character, and is unchanged after every
    other event. *)
Theorem loop_calculator_frame ev mcs disp :
  mcs_cs (lr_mcs (morsecalc_face_loop ev mcs disp)) =
  match ev with
  | EVENT_MODE_BUTTON_UP =>
      if Ascii.eqb (mc_dec (mc_b (mcs_mc mcs))) " "
      then (calc_input (mcs_cs mcs) (mcs_token mcs)).2
      else mcs_cs mcs
  | _ => mcs_cs mcs
  end.
Proof.
  destruct ev; cbn [morsecalc_face_loop lr_mcs]; try done;
    try (by rewrite dispatch_symbol).
  destruct (Ascii.eqb_spec (mc_dec (mc_b (mcs_mc mcs))) " ") as [H1|H1].
  { by rewrite input_on_submit. }
  rewrite input_state. unfold morsecalc_input_dispatch.
  cbn [Ascii.eqb Bool.eqb negb]. apply Ascii.eqb_neq in H1. rewrite H1.
  by repeat case_match.
Qed.

(** X7: the token buffer is touched by completed characters only: after a
    dot, a dash, a long press, a quit event, any other event, or a
    completed character whose symbols decode to nothing, the token array,
    its index and the calculator are as before. *)
Theorem loop_token_frame ev mcs disp :
  ev <> EVENT_MODE_BUTTON_UP \/ mc_dec (mc_b (mcs_mc mcs)) = NUL ->
  let mcs' := lr_mcs (morsecalc_face_loop ev mcs disp) in
  mcs_token mcs' = mcs_token mcs /\ mcs_idxt mcs' = mcs_idxt mcs /\
  mcs_cs mcs' = mcs_cs mcs.
Proof.
  intros Hev mcs'. subst mcs'.
  destruct ev; cbn [morsecalc_face_loop lr_mcs]; try done;
    try (by rewrite dispatch_symbol).
  destruct Hev as [Hev|Hdec]; [done|]. by rewrite dispatch_invalid.
Qed.

(** X8: setup initialises a session once.  With a null context it builds
    a session with an empty token and an empty symbol buffer whatever the
    allocated memory held; with an existing context it changes nothing, so
    running setup again keeps the typed token and the stack. *)
Theorem setup_once calc_init fresh fresh' context_ptr :
  0 < MORSECALC_TOKEN_LEN ->
  exists mcs,
    morsecalc_face_setup calc_init fresh context_ptr = Some mcs /\
    morsecalc_face_setup calc_init fresh' (Some mcs) = Some mcs /\
    (context_ptr = None ->
     token_holds [] mcs /\ mc_b (mcs_mc mcs) = [] /\ mc_bidx (mcs_mc mcs) = 0 /\
     mcs_cs mcs = calc_init (mcs_cs fresh)) /\
    (forall mcs0, context_ptr = Some mcs0 -> mcs = mcs0).
Proof.
  intros Hpos. destruct context_ptr as [mcs0|]; cbn [morsecalc_face_setup].
  - exists mcs0. split; [done|]. split; [done|]. split; [done|]. by intros ? [= ->].
  - eexists. split; [done|]. split; [done|]. split; [|done]. intros _.
    split; [|done]. apply (token_holds_reset fresh Hpos).
Qed.

End TokenBuffer.

(** ** What the views write *)

Lemma glyph_write c p d q :
  glyph (watch_display_character c p d) q =
  if decide (p = q /\ (p < Num_Chars)%nat) then c else glyph d q.
Proof.
  unfold glyph, watch_display_character.
  destruct (Nat.ltb_spec p Num_Chars); case_decide as Hd.
  - destruct Hd as [-> _]. by rewrite lookup_insert_eq.
  - rewrite lookup_insert_ne; [done|]. intros ->. by apply Hd.
  - lia.
  - done.
Qed.

Lemma agree_write P c p d1 d2 :
  agree_on P d1 d2 ->
  agree_on P (watch_display_character c p d1) (watch_display_character c p d2).
Proof. intros H q Hq. rewrite !glyph_write. case_decide; [done|by apply H]. Qed.

Lemma agree_chars P l p d1 d2 :
  agree_on P d1 d2 -> agree_on P (watch_display_chars l p d1) (watch_display_chars l p d2).
Proof.
  revert p d1 d2. induction l as [|c l IH]; intros p d1 d2 H; [done|].
  cbn [watch_display_chars]. by apply IH, agree_write.
Qed.

Lemma agree_string P str p d1 d2 :
  agree_on P d1 d2 ->
  agree_on P (watch_display_string str p d1) (watch_display_string str p d2).
Proof. apply agree_chars. Qed.

(** Clearing the row makes any two displays show the same row. *)
Lemma same_row_clear d1 d2 :
  same_row (watch_display_string "          " 0 d1) (watch_display_string "          " 0 d2).
Proof.
  intros p Hp. unfold Num_Chars in Hp.
  do 10 (destruct p as [|p]; [by read_display|]). lia.
Qed.

Lemma same_row_render d1 d2 : same_row d1 d2 <-> render d1 = render d2.
Proof.
  unfold render, Num_Chars. cbn [field]. split.
  - intros H. by rewrite !H by (unfold Num_Chars; lia).
  - intros [= H0 H1 H2 H3 H4 H5 H6 H7 H8 H9] p Hp. unfold Num_Chars in Hp.
    do 10 (destruct p as [|p]; [done|]). lia.
Qed.

Section Views.

Context {M : MathLib} {L : MorseCalcLib}.

(** [print_float_fields] on two displays and with two value signs: the
    results agree wherever the displays agree once the value sign is
    written. *)
Lemma agree_fields P n1 n2 om_is_negative om digits d1 d2 :
  agree_on P
    (if negb (n1 =? 0) then watch_display_character "-" 1 d1
     else watch_display_character " " 1 d1)
    (if negb (n2 =? 0) then watch_display_character "-" 1 d2
     else watch_display_character " " 1 d2) ->
  agree_on P (print_float_fields n1 om_is_negative om digits d1)
             (print_float_fields n2 om_is_negative om digits d2).
Proof.
  unfold print_float_fields.
  destruct (negb (n1 =? 0)), (negb (n2 =? 0)); intros H; case_tests;
    repeat first [exact H | apply agree_write | apply agree_string].
Qed.

Lemma agree_print_float P d d1 d2 :
  agree_on P d1 d2 ->
  agree_on P (morsecalc_print_float d d1) (morsecalc_print_float d d2).
Proof.
  intros H. unfold morsecalc_print_float. case_tests;
    repeat first [exact H | apply agree_write | apply agree_string].
  destruct (float_parts d) as [[[n o] e] g].
  apply agree_fields. destruct (negb (n =? 0)); by apply agree_write.
Qed.

Lemma same_row_print_token mcs d1 d2 :
  same_row (morsecalc_print_token mcs d1) (morsecalc_print_token mcs d2).
Proof.
  unfold morsecalc_print_token. cbv zeta.
  apply agree_string. do 2 apply agree_write. apply same_row_clear.
Qed.

Lemma same_row_print_stack mcs d1 d2 :
  same_row (morsecalc_print_stack mcs d1) (morsecalc_print_stack mcs d2).
Proof.
  unfold morsecalc_print_stack. do 2 apply agree_write.
  destruct (stack_view_subscript mcs).
  - apply agree_print_float, same_row_clear.
  - apply agree_string, same_row_clear.
Qed.

Lemma same_row_print_errors status d1 d2 :
  same_row d1 d2 ->
  same_row (morsecalc_print_errors status d1) (morsecalc_print_errors status d2).
Proof.
  intros H. unfold morsecalc_print_errors.
  destruct (error_literal status); [by apply agree_string|done].
Qed.

(** X9: the views repaint the whole row.  What the token view, the stack
    view and activation show does not depend on what was displayed before,
    and neither does the display after an input, unless the input is an
    append refused for lack of room (which writes "  full" over the main
    field only).  An error literal therefore lasts until the next such
    repaint. *)
Theorem views_repaint mcs c d1 d2 :
  render (morsecalc_print_token mcs d1) = render (morsecalc_print_token mcs d2) /\
  render (morsecalc_print_stack mcs d1) = render (morsecalc_print_stack mcs d2) /\
  render (morsecalc_face_activate mcs d1).2 = render (morsecalc_face_activate mcs d2).2 /\
  (let dec := mc_dec (mc_b (mcs_mc mcs)) in
   (c = "x"%char -> dec <> NUL -> dec <> " "%char -> dec <> "("%char -> dec <> "S"%char ->
    mcs_idxt mcs < MORSECALC_TOKEN_LEN - 1) ->
   render (morsecalc_input mcs c d1).2 = render (morsecalc_input mcs c d2).2).
Proof.
  split; [apply same_row_render, same_row_print_token|].
  split; [apply same_row_render, same_row_print_stack|].
  split; [apply same_row_render, same_row_print_stack|].
  intros dec Hroom. apply same_row_render.
  rewrite !input_display.
  assert ((morsecalc_input_dispatch mcs c d1).1.1 = (morsecalc_input_dispatch mcs c d2).1.1)
    as <- by (by rewrite !dispatch_status).
  apply same_row_print_errors.
  unfold morsecalc_input_dispatch. fold dec.
  destruct (Ascii.eqb_spec c "x") as [Hc|Hc]; cbn [negb snd];
    [|apply same_row_print_token].
  destruct (Ascii.eqb_spec dec NUL) as [H0|H0]; [apply same_row_print_token|].
  destruct (Ascii.eqb_spec dec " ") as [H1|H1].
  { cbn [with_mc mcs_cs mcs_token]. destruct (calc_input _ _). apply same_row_print_stack. }
  destruct (Ascii.eqb_spec dec "(") as [H2|H2]; [apply same_row_print_token|].
  destruct (Ascii.eqb_spec dec "S") as [H3|H3]; [apply same_row_print_stack|].
  cbn [with_mc mcs_idxt].
  destruct (Z.ltb_spec (mcs_idxt mcs) (MORSECALC_TOKEN_LEN - 1)) as [_|Hfull];
    [apply same_row_print_token|].
  specialize (Hroom Hc H0 H1 H2 H3). lia.
Qed.

(** X10: the formatter never writes the mode position 0 nor the corner
    position 3, whatever the double: the stack view's index and depth
    digits cannot be overwritten by a value. *)
Theorem print_float_keeps_corners d disp :
  glyph (morsecalc_print_float d disp) 0 = glyph disp 0 /\
  glyph (morsecalc_print_float d disp) 3 = glyph disp 3.
Proof.
  unfold morsecalc_print_float.
  destruct (float_parts d) as [[[n o] e] g]. unfold print_float_fields.
  split; case_tests; by read_display.
Qed.

Lemma c_str_drop t mcs k :
  token_holds t mcs -> (k <= length t)%nat -> c_str (drop k (mcs_token mcs)) = drop k t.
Proof.
  intros (Ht & _ & Htok & _) Hk.
  rewrite Htok, drop_app_le by done. by apply c_str_text, Forall_drop.
Qed.

(** X11: the token view.  When the token buffer holds [t], the row shows
    the character the pending symbols decode to (blank if none) at
    position 0, blanks at 1 and 2, the number of pending symbols at 3, and
    in the main field the last six characters of [t], right-aligned and
    padded with blanks on the left. *)
Theorem token_view_layout t mcs disp :
  token_holds t mcs ->
  MORSECALC_TOKEN_LEN <= 256 ->
  let r := morsecalc_print_token mcs disp in
  let dec := mc_dec (mc_b (mcs_mc mcs)) in
  let tail := drop (length t - 6) t in
  glyph r 0 = (if Ascii.eqb NUL dec then " "%char else dec) /\
  field r 1 2 = "  "%string /\
  glyph r 3 = char_of_int (48 + mc_bidx (mcs_mc mcs)) /\
  field r 4 6 = string_of_list_ascii (replicate (6 - length tail) " "%char ++ tail).
Proof.
  intros Hold Hcap r dec tail.
  destruct (token_holds_text _ _ Hold) as [_ Hlen].
  pose proof Hold as (_ & Hl & _ & Hidx).
  subst r. unfold morsecalc_print_token. cbv zeta. fold dec.
  rewrite Hlen, Hidx, Z.mod_small by lia.
  replace (Z.to_nat (Z.of_nat (length t) - Z.of_nat (length t) `min` 6))
    with (length t - 6)%nat by lia.
  rewrite (c_str_drop t) by (done || lia). fold tail.
  assert (Z.to_nat (Z.of_nat (length t) `min` 6) = length tail) as ->.
  { subst tail. rewrite length_drop. lia. }
  assert (length tail <= 6)%nat as Htail.
  { subst tail. rewrite length_drop. lia. }
  unfold watch_display_string at 1. rewrite list_ascii_of_string_of_list_ascii.
  clearbody tail.
  destruct tail as [|c1 [|c2 [|c3 [|c4 [|c5 [|c6 [|c7 tail]]]]]]];
    cbn [length] in Htail; try lia;
    cbn [length Nat.sub replicate app string_of_list_ascii watch_display_chars];
    repeat split; by read_display.
Qed.

End Views.

(** ** More on the formatter *)

Section FormatterSigns.

Context {M : MathLib}.

(** A double that takes none of the early returns is finite and nonzero. *)
Lemma nonspecial_finite d :
  is_special d = false -> exists s m e, Prim2SF d = S754_finite s m e.
Proof.
  intros H. apply is_special_false in H as (H0 & H1 & H2 & H3).
  unfold PrimFloat.is_nan in H1. rewrite FloatAxioms.eqb_spec in H0, H1, H2, H3.
  change (Prim2SF 0) with (S754_zero false) in H0.
  change (Prim2SF (1 / 0)) with (S754_infinity false) in H2.
  change (Prim2SF ((-1) / 0)) with (S754_infinity true) in H3.
  destruct (Prim2SF d) as [s|s| |s m e]; try discriminate; [|eauto].
  by destruct s.
Qed.

Lemma finite_negative d s m e : Prim2SF d = S754_finite s m e -> (d <? 0)%float = s.
Proof.
  intros Hd. rewrite FloatAxioms.ltb_spec, Hd. change (Prim2SF 0) with (S754_zero false).
  by destruct s.
Qed.

Lemma finite_opp d s m e :
  Prim2SF d = S754_finite s m e -> Prim2SF (- d) = S754_finite (negb s) m e.
Proof. intros Hd. by rewrite FloatAxioms.opp_spec, Hd. Qed.

Lemma finite_nonspecial d s m e : Prim2SF d = S754_finite s m e -> is_special d = false.
Proof.
  intros Hd. unfold is_special, PrimFloat.is_nan. rewrite !FloatAxioms.eqb_spec, Hd.
  change (Prim2SF 0) with (S754_zero false).
  change (Prim2SF (1 / 0)) with (S754_infinity false).
  change (Prim2SF ((-1) / 0)) with (S754_infinity true).
  unfold SFeqb. cbn [SFcompare]. rewrite Z.compare_refl, Pos.compare_cont_refl.
  by destruct s.
Qed.

Lemma magnitude_opp d : is_special d = false -> magnitude (- d) = magnitude d.
Proof.
  intros Hs. destruct (nonspecial_finite d Hs) as (s & m & e & Hd).
  unfold magnitude.
  rewrite (finite_negative _ _ _ _ Hd), (finite_negative _ _ _ _ (finite_opp _ _ _ _ Hd)).
  destruct s; cbn [negb]; [done|].
  apply Prim2SF_inj. by rewrite !FloatAxioms.opp_spec, Hd.
Qed.

(** X12: without a rounding carry.  For a finite nonzero double whose
    rounded digits lie between 0 and 9999 and whose order of magnitude fits
    two digits, the value-sign position shows '-' exactly when the double
    is negative, the digit positions show the rounded digits as four
    decimal digits, and the exponent positions show the absolute order of
    magnitude as two. *)
Theorem print_float_layout d disp :
  let om := order_of_magnitude (magnitude d) in
  let digits := significant_digits (magnitude d) om in
  is_special d = false ->
  0 <= digits <= 9999 ->
  Z.abs om <= 99 ->
  let res := morsecalc_print_float d disp in
  glyph res 1 = (if (d <? 0)%float then "-"%char else " "%char) /\
  field res 4 4 = decimal 4 digits /\
  field res 8 2 = decimal 2 (Z.abs om).
Proof.
  intros om digits Hs Hd Hom.
  apply (print_float_in_range d disp (Z.b2z (d <? 0)%float) (Z.b2z (om <? 0))); [done| |lia|done].
  rewrite float_parts_eq. cbv zeta. fold om digits.
  destruct (Z.gtb_spec digits 9999); [lia|done].
Qed.

(** X13: the sign of the value only matters for the value-sign position.
    For a finite nonzero double [d], formatting [-d] computes the same
    order of magnitude and digits as formatting [d], shows the other
    value sign, and shows the same glyph at every other position. *)
Theorem print_float_opp d disp :
  is_special d = false ->
  is_special (- d) = false /\
  magnitude (- d) = magnitude d /\
  glyph (morsecalc_print_float (- d) disp) 1 = (if (d <? 0)%float then " "%char else "-"%char) /\
  glyph (morsecalc_print_float d disp) 1 = (if (d <? 0)%float then "-"%char else " "%char) /\
  (forall q, q <> 1%nat ->
   glyph (morsecalc_print_float (- d) disp) q = glyph (morsecalc_print_float d disp) q).
Proof.
  intros Hs. destruct (nonspecial_finite d Hs) as (s & m & e & Hd).
  pose proof (finite_opp _ _ _ _ Hd) as Hd'.
  pose proof (finite_nonspecial _ _ _ _ Hd') as Hs'.
  pose proof (magnitude_opp d Hs) as Hmag.
  split; [done|]. split; [done|].
  rewrite !print_float_finite, !float_parts_eq by done. cbv zeta. rewrite Hmag.
  rewrite (finite_negative _ _ _ _ Hd), (finite_negative _ _ _ _ Hd').
  set (om := order_of_magnitude (magnitude d)).
  destruct (significant_digits (magnitude d) om >? 9999);
    (split; [rewrite fields_value_sign; by destruct s|]);
    (split; [rewrite fields_value_sign; by destruct s|]);
    apply (agree_fields (fun q => q <> 1%nat));
    intros q Hq; destruct s; cbn; by rewrite !glyph_write_ne.
Qed.

End FormatterSigns.

(** ** The extra properties on concrete sessions *)

(** Settles [token_holds] on a concrete session of the sample library. *)
Ltac holds_here :=
  unfold token_holds;
  split; [repeat constructor; discriminate|];
  split; [vm_compute; lia|];
  split; reflexivity.

(** "e" typed after "12". *)
Lemma input_appends_witness :
  token_holds (list_ascii_of_string "12") (session "." "12" []) /\
  c_str (mcs_token (morsecalc_input (session "." "12" []) "x" ∅).1) =
    list_ascii_of_string "12e".
Proof.
  split; [holds_here|].
  destruct (input_appends (M := ref_math) (L := sample_lib)
              (list_ascii_of_string "12") (session "." "12" []) ∅) as (_ & Hc & _);
    [holds_here|vm_compute; discriminate|discriminate|discriminate|discriminate
    |discriminate|reflexivity|].
  exact Hc.
Defined.

(** The erase command after "12". *)
Lemma input_erases_last_witness :
  token_holds (list_ascii_of_string "12") (session "-.--." "12" []) /\
  c_str (mcs_token (morsecalc_input (session "-.--." "12" []) "x" ∅).1) =
    list_ascii_of_string "1".
Proof.
  split; [holds_here|].
  destruct (input_erases_last (M := ref_math) (L := sample_lib)
              (list_ascii_of_string "12") (session "-.--." "12" []) ∅) as (_ & Hc & _);
    [holds_here|vm_compute; discriminate|reflexivity|].
  exact Hc.
Defined.

(** "e" typed after "12", then erased. *)
Lemma append_then_erase_witness :
  let mcs := session "." "12" [] in
  let mc2 := {| mc_b := list_ascii_of_string "-.--."; mc_bidx := 5 |} in
  let mcs1 := (morsecalc_input mcs "x" ∅).1 in
  c_str (mcs_token mcs1) = list_ascii_of_string "12e" /\
  mcs_token (morsecalc_input (with_mc mcs1 mc2) "x" ∅).1 = mcs_token mcs.
Proof.
  cbv zeta. split; [reflexivity|].
  destruct (append_then_erase (M := ref_math) (L := sample_lib)
              (list_ascii_of_string "12") (session "." "12" []) ∅
              {| mc_b := list_ascii_of_string "-.--."; mc_bidx := 5 |} ∅) as (Ht & _);
    [holds_here|vm_compute; discriminate|discriminate|discriminate|discriminate
    |discriminate|reflexivity|reflexivity|].
  exact Ht.
Defined.

(** A session set up on arbitrary memory and fed "e", a completed
    character, a dash, a long press and an erase. *)
Lemma token_terminated_always_witness :
  let events := [EVENT_ALARM_BUTTON_UP; EVENT_MODE_BUTTON_UP; EVENT_LIGHT_BUTTON_UP;
                 EVENT_ALARM_LONG_PRESS; EVENT_MODE_BUTTON_UP] in
  let mcs0 := session EmptyString EmptyString [] in
  morsecalc_face_setup Sample.calc_init (session "..." "zz" [1%float]) None = Some mcs0 /\
  strlen (mcs_token (run_events events mcs0 ∅).1) = mcs_idxt (run_events events mcs0 ∅).1.
Proof.
  cbv zeta. split; [reflexivity|].
  destruct (token_terminated_always (M := ref_math) (L := sample_lib)
              Sample.calc_init (session "..." "zz" [1%float])
              [EVENT_ALARM_BUTTON_UP; EVENT_MODE_BUTTON_UP; EVENT_LIGHT_BUTTON_UP;
               EVENT_ALARM_LONG_PRESS; EVENT_MODE_BUTTON_UP] ∅
              (session EmptyString EmptyString [])) as (_ & Hlen & _);
    [vm_compute; split; [reflexivity|discriminate]|reflexivity|].
  exact Hlen.
Defined.

(** The clear command after "12", with 3 on the stack. *)
Lemma input_clears_witness :
  mc_dec (mc_b (mcs_mc (session "-.-.-" "12" [3%float]))) = "S"%char /\
  c_str (mcs_token (morsecalc_input (session "-.-.-" "12" [3%float]) "x" ∅).1) = [] /\
  mcs_cs (morsecalc_input (session "-.-.-" "12" [3%float]) "x" ∅).1 =
    mcs_cs (session "-.-.-" "12" [3%float]).
Proof.
  split; [reflexivity|].
  destruct (input_clears (M := ref_math) (L := sample_lib)
              (session "-.-.-" "12" [3%float]) ∅) as (_ & Hc & Hcs & _);
    [reflexivity|reflexivity|].
  split; [exact Hc|exact Hcs].
Defined.

(** A dot after "12". *)
Lemma loop_token_frame_witness :
  mcs_token (lr_mcs (morsecalc_face_loop EVENT_ALARM_BUTTON_UP
                       (session EmptyString "12" []) ∅)) =
  mcs_token (session EmptyString "12" []).
Proof.
  destruct (loop_token_frame (M := ref_math) (L := sample_lib)
              EVENT_ALARM_BUTTON_UP (session EmptyString "12" []) ∅) as (Ht & _);
    [left; discriminate|].
  exact Ht.
Defined.

(** Setup on a null context, then again on the session it made. *)
Lemma setup_once_witness :
  exists mcs,
    morsecalc_face_setup Sample.calc_init (session "..." "zz" [1%float]) None = Some mcs /\
    morsecalc_face_setup Sample.calc_init (session "-" "y" []) (Some mcs) = Some mcs.
Proof.
  destruct (setup_once (L := sample_lib) Sample.calc_init
              (session "..." "zz" [1%float]) (session "-" "y" []) None)
    as (mcs & H1 & H2 & _); [reflexivity|].
  exists mcs. split; [exact H1|exact H2].
Defined.

(** The token view of "12345678" with one dot pending. *)
Lemma token_view_layout_witness :
  token_holds (list_ascii_of_string "12345678") (session "." "12345678" []) /\
  render (morsecalc_print_token (session "." "12345678" []) ∅) = "e  1345678"%string /\
  field (morsecalc_print_token (session "." "12345678" []) ∅) 4 6 = "345678"%string.
Proof.
  split; [holds_here|]. split; [reflexivity|].
  destruct (token_view_layout (L := sample_lib)
              (list_ascii_of_string "12345678") (session "." "12345678" []) ∅)
    as (_ & _ & _ & Hf); [holds_here|vm_compute; discriminate|].
  exact Hf.
Defined.

(** 3.14159: no carry, digits 3142, exponent 00. *)
Lemma print_float_layout_witness :
  significant_digits (magnitude 3.14159) (order_of_magnitude (magnitude 3.14159)) = 3142 /\
  field (morsecalc_print_float 3.14159 ∅) 4 4 = "3142"%string /\
  field (morsecalc_print_float 3.14159 ∅) 8 2 = "00"%string.
Proof.
  split; [vm_compute; reflexivity|].
  destruct (print_float_layout (M := ref_math) 3.14159 ∅) as (_ & Hd & He);
    [vm_compute; reflexivity|vm_compute; split; discriminate|vm_compute; discriminate|].
  split; [exact Hd|exact He].
Defined.

(** 3.14159 and -3.14159. *)
Lemma print_float_opp_witness :
  render (morsecalc_print_float 3.14159 ∅) = "    314200"%string /\
  render (morsecalc_print_float (-3.14159) ∅) = " -  314200"%string /\
  glyph (morsecalc_print_float (- 3.14159) ∅) 1 = "-"%char.
Proof.
  split; [vm_compute; reflexivity|]. split; [vm_compute; reflexivity|].
  destruct (print_float_opp (M := ref_math) 3.14159 ∅) as (_ & _ & Hs & _);
    [vm_compute; reflexivity|].
  exact Hs.
Defined.

(** ** The stack view after a reset of the symbol buffer *)

Section StackViewTop.

Context {M : MathLib} {L : MorseCalcLib}.

(** The stack view of a session whose symbol buffer is empty, when the
    empty sequence does not decode to a digit: index 0, that is the top of
    the stack, or " empty" when there is none. *)
Lemma print_stack_top mcs disp :
  let c := int_of_char (mc_dec []) in
  ~ (48 <= c <= 57) ->
  mc_b (mcs_mc mcs) = [] ->
  let s := cs_s (mcs_cs mcs) in
  let cleared := watch_display_string "          " 0 disp in
  morsecalc_print_stack mcs disp =
  watch_display_character (char_of_int (48 + s)) 3
    (watch_display_character "0" 0
       (if s <=? 0 then watch_display_string " empty" 4 cleared
        else morsecalc_print_float (stack_at (mcs_cs mcs) (s - 1)) cleared)).
Proof.
  intros c Hc Hb s cleared.
  unfold morsecalc_print_stack, stack_view_subscript, stack_view_idx.
  rewrite Hb. fold c s cleared.
  assert ((48 <=? c) && (c <=? 57) = false) as ->.
  { destruct (Z.leb_spec 48 c), (Z.leb_spec c 57); cbn; first [done|lia]. }
  destruct (Z.geb_spec 0 s), (Z.leb_spec s 0); try lia; [done|].
  by rewrite Z.sub_0_r.
Qed.

(** X14: activation shows the top of the stack.  When the empty symbol
    sequence does not decode to a digit, the stack view drawn on activation
    selects index 0: it shows "0" at position 0, the depth at position 3,
    and the formatted top item [stack[s-1]], or " empty" when the stack has
    no item. *)
Theorem activate_shows_top mcs disp :
  let c := int_of_char (mc_dec []) in
  ~ (48 <= c <= 57) ->
  let s := cs_s (mcs_cs mcs) in
  let cleared := watch_display_string "          " 0 disp in
  (morsecalc_face_activate mcs disp).2 =
  watch_display_character (char_of_int (48 + s)) 3
    (watch_display_character "0" 0
       (if s <=? 0 then watch_display_string " empty" 4 cleared
        else morsecalc_print_float (stack_at (mcs_cs mcs) (s - 1)) cleared)).
Proof.
  intros c Hc s cleared. unfold morsecalc_face_activate. cbn [snd].
  by rewrite print_stack_top.
Qed.

(** X15: a submit the calculator accepts shows the new top of the stack.
    When the empty symbol sequence does not decode to a digit and the
    calculator answers status 0, the display after the submit is the stack
    view of the calculator's new state at index 0, with no literal over
    it. *)
Theorem submit_shows_top mcs disp :
  let c := int_of_char (mc_dec []) in
  ~ (48 <= c <= 57) ->
  mc_dec (mc_b (mcs_mc mcs)) = " "%char ->
  (calc_input (mcs_cs mcs) (mcs_token mcs)).1 = 0 ->
  let cs' := (calc_input (mcs_cs mcs) (mcs_token mcs)).2 in
  let s := cs_s cs' in
  let cleared := watch_display_string "          " 0 disp in
  mcs_cs (morsecalc_input mcs "x" disp).1 = cs' /\
  (morsecalc_input mcs "x" disp).2 =
  watch_display_character (char_of_int (48 + s)) 3
    (watch_display_character "0" 0
       (if s <=? 0 then watch_display_string " empty" 4 cleared
        else morsecalc_print_float (stack_at cs' (s - 1)) cleared)).
Proof.
  intros c Hc Hdec Hst cs' s cleared.
  rewrite input_on_submit by done. cbn [fst snd mcs_cs]. split; [done|].
  rewrite Hst. change (morsecalc_print_errors 0 ?d) with d.
  by rewrite print_stack_top.
Qed.

End StackViewTop.

(** Activation with 12 on top of the stack. *)
Lemma activate_shows_top_witness :
  render (morsecalc_face_activate (session "." "7" [3%float; 12%float]) ∅).2 =
    "0  2120001"%string.
Proof.
  rewrite (activate_shows_top (M := ref_math) (L := sample_lib)
             (session "." "7" [3%float; 12%float]) ∅) by (intros [H _]; apply H; reflexivity).
  vm_compute. reflexivity.
Defined.

(** Submitting "12" on an empty stack. *)
Lemma submit_shows_top_witness :
  (calc_input (mcs_cs (session EmptyString "12" []))
              (mcs_token (session EmptyString "12" []))).1 = 0 /\
  render (morsecalc_input (session EmptyString "12" []) "x" ∅).2 = "0  1120001"%string.
Proof.
  split; [reflexivity|].
  destruct (submit_shows_top (M := ref_math) (L := sample_lib)
              (session EmptyString "12" []) ∅) as (_ & Hd);
    [intros [H _]; apply H; reflexivity|reflexivity|reflexivity|].
  rewrite Hd. vm_compute. reflexivity.
Defined.
